(** * Secret Santa sample: term construction and result interpretation

    A shallow embedding of the two helper functions of
    [samples/secret-santa/secret-santa.ipynb] and of the cell that assembles
    the objective:

    - [build_terms i j], which emits the six monomials of the expansion of
      [(x_i + x_j - 1)^2];
    - the assembled [terms] list handed to [Problem];
    - [print_results config], which walks the solver's configuration and
      prints the sentence of every variable set to one.

    Python integers are unbounded, hence [Z].  The coefficients in the source
    are the float literals [1.0], [2.0] and [-2.0]; they are integral and every
    sum formed from them below stays far inside the range where binary floating
    point is exact, so they are carried as [Z] too.

    [Module Effects] holds [build_terms] a second time, statement by
    statement, over the list objects and the output a call could touch and
    with the SDK's [Term] constructor as a parameter that may raise.

    The quadratic assignment notebook that follows in the same source file is
    embedded in [Module Qap]: the loops that fill [variable_map], the pairwise
    cost terms, the grouped constraint terms, and the loop that reads the
    solution back.  Its size, matrices, penalty and offset are parameters of
    the loops; the notebook's values instantiate them.  Its pairwise
    coefficients are floats with integer numerators over 2 and are carried as
    [Q], the conversion of an integer to a float being written out. *)

From stdpp Require Import gmap strings list fin_maps pretty.
From Stdlib Require Import ZArith Lia QArith.

Local Open Scope Z_scope.

(** ** Terms *)

Module Term.

(** [Term(c = ..., indices = [...])]: a coefficient and the list of the
    variable indices whose product it weighs. *)
Record t : Type := Term { c : Z; indices : list Z }.

End Term.

Abbreviation Term := Term.Term.

(** [build_terms(i, j)]: an empty list followed by six [append]s, in the
    order of the source. *)
Definition build_terms (i j : Z) : list Term.t :=
  let terms := [] in
  let terms := terms ++ [Term 1 [i; i]] in
  let terms := terms ++ [Term 1 [j; j]] in
  let terms := terms ++ [Term 2 [i; j]] in
  let terms := terms ++ [Term (-2) [i]] in
  let terms := terms ++ [Term (-2) [j]] in
  let terms := terms ++ [Term 1 []] in
  terms.

(** The cell "Bringing it all together": three rows, then three columns. *)
Definition terms : list Term.t :=
  let terms := build_terms 0 1 ++ build_terms 2 3 ++ build_terms 4 5 in
  let terms := terms ++ build_terms 2 4 ++ build_terms 0 5 ++ build_terms 1 3 in
  terms.

(** ** [build_terms] with its effects *)

Module Effects.

(** An exception, by the name of its class. *)
Inductive exception : Type :=
| Exception (name : string).

(** What a call of [build_terms] could touch: the list objects of the
    program, each known by its address, and the lines printed so far. *)
Record interp : Type := Interp { lists : list (list Term.t); printed : list string }.

(** A statement runs from a state to a state and yields a value or raises. *)
Definition M (A : Type) : Type := interp -> interp * (exception + A).

#[global] Instance M_ret : MRet M := fun A a s => (s, inr a).

#[global] Instance M_bind : MBind M := fun A B f m s =>
  match m s with
  | (s', inr a) => f a s'
  | (s', inl e) => (s', inl e)
  end.

(** [[]]: a new, empty list object; the value is a reference to it. *)
Definition new_list : M nat := fun s =>
  (Interp (lists s ++ [[]]) (printed s), inr (length (lists s))).

(** [ref.append(t)]: the object behind [ref] grows by [t] in place.  A
    reference always points to a live object; the last case only makes the
    function total. *)
Definition append (ref : nat) (t : Term.t) : M () := fun s =>
  match lists s !! ref with
  | Some l => (Interp (<[ref := l ++ [t]]> (lists s)) (printed s), inr ())
  | None => (s, inl (Exception "SystemError"))
  end.

(** [Term(c = ..., indices = ...)]: the constructor belongs to the SDK, not
    to the notebook; it is a parameter that returns a term or raises.  The
    index list it is handed is a fresh literal that nothing else refers to,
    so it is passed as a value. *)
Definition call_Term (Term_init : Z -> list Z -> exception + Term.t)
    (c : Z) (indices : list Z) : M Term.t :=
  fun s => (s, Term_init c indices).

(** The body of [build_terms], one statement per line. *)
Definition build_terms (Term_init : Z -> list Z -> exception + Term.t)
    (i j : Z) : M nat :=
  terms ← new_list;
  t ← call_Term Term_init 1 [i; i]; _ ← append terms t;
  t ← call_Term Term_init 1 [j; j]; _ ← append terms t;
  t ← call_Term Term_init 2 [i; j]; _ ← append terms t;
  t ← call_Term Term_init (-2) [i]; _ ← append terms t;
  t ← call_Term Term_init (-2) [j]; _ ← append terms t;
  t ← call_Term Term_init 1 []; _ ← append terms t;
  mret terms.


(** A constructor that accepts everything, and one that validates indices
    against a variable count, as the notebook's does not. *)
Definition accepting (c : Z) (indices : list Z) : exception + Term.t :=
  inr (Term c indices).

Definition validating (count : Z) (c : Z) (indices : list Z)
    : exception + Term.t :=
  if forallb (fun k => (0 <=? k) && (k <? count)) indices
  then inr (Term c indices)
  else inl (Exception "IndexError").

(** A state with one list object and one printed line. *)
Definition busy : interp :=
  Interp [[Term 9 [0]]] ["Submitting problem to Azure Quantum"%string].

End Effects.

(** ** Meaning of a term list

    The notebook's introduction fixes what a list of terms denotes:
    [sum_k c_k * prod_i x_i], a term with no index being the constant [c_k].
    An assignment gives every variable index its value. *)

Definition assignment : Type := Z -> Z.

Definition product (x : assignment) (ids : list Z) : Z :=
  foldr (fun k acc => x k * acc) 1 ids.

Definition term_value (x : assignment) (t : Term.t) : Z :=
  Term.c t * product x (Term.indices t).

Definition cost (x : assignment) (ts : list Term.t) : Z :=
  foldr (fun t acc => term_value x t + acc) 0 ts.

(** [assign k v x]: the assignment [x] with variable [k] set to [v]. *)
Definition assign (k v : Z) (x : assignment) : assignment :=
  fun n => if Z.eqb n k then v else x n.

Definition binary_on (ids : list Z) (x : assignment) : Prop :=
  Forall (fun k => x k = 0 \/ x k = 1) ids.

(** The six exclusive-or pairs of the scenario table, rows then columns. *)
Definition constraint_pairs : list (Z * Z) :=
  [(0, 1); (2, 3); (4, 5); (2, 4); (0, 5); (1, 3)].

Definition exactly_one (x : assignment) (p : Z * Z) : bool :=
  xorb (Z.eqb (x (fst p)) 1) (Z.eqb (x (snd p)) 1).

Definition feasible (x : assignment) : bool :=
  forallb (exactly_one x) constraint_pairs.

(** Vincent buys for Tess, Tess for Uma, Uma for Vincent. *)
Definition vincent_tess_uma : assignment :=
  fun k => if bool_decide (k ∈ [0; 3; 4]) then 1 else 0.

(** ** The result interpreter *)

(** The sentence table local to [print_results], a dict literal keyed by the
    decimal strings of the six variable ids. *)
Definition result_items : list (string * string) :=
  [("0", "Vincent buys Tess a gift and writes her a poem.");
   ("1", "Vincent buys Uma a gift and writes her a poem.");
   ("2", "Tess buys Vincent a gift and writes him a poem.");
   ("3", "Tess buys Uma a gift and writes her a poem.");
   ("4", "Uma buys Vincent a gift and writes him a poem.");
   ("5", "Uma buys Tess a gift and writes her a poem.")]%string.

Definition result : gmap string string := list_to_map result_items.

Definition table_keys : list string := result_items.*1.

(** A configuration is the solver's dict from variable id (a string) to its
    integer value.  [config.items()] yields the entries in insertion order,
    and that order decides what is printed before a failure, so the dict is
    kept as the list of its items; a dict has no repeated key ([dict_like]). *)
Abbreviation configuration := (list (string * Z)).

Definition dict_like (config : configuration) : Prop := NoDup config.*1.

(** [config[key]]: the value stored under [key], if any. *)
Fixpoint getitem (config : configuration) (key : string) : option Z :=
  match config with
  | [] => None
  | (k, v) :: rest => if decide (k = key) then Some v else getitem rest key
  end.

(** What a call can observe and change: the configuration object it was
    handed (by reference) and the lines written to standard output so far. *)
Record world : Type := World { config : configuration; stdout : list string }.

(** How a call ends: it returns, or [result[key]] raises [KeyError]. *)
Inductive outcome : Type :=
| Returned
| KeyError (key : string).

(** [print(line)]: one more line on standard output, nothing else touched. *)
Definition print (line : string) (w : world) : world :=
  World (config w) (stdout w ++ [line]).

(** The [for key, val in config.items()] loop over the remaining items. *)
Fixpoint for_items (items : configuration) (w : world) : world * outcome :=
  match items with
  | [] => (w, Returned)
  | (key, val) :: rest =>
      if Z.eqb val 1 then
        match result !! key with
        | Some line => for_items rest (print line w)
        | None => (w, KeyError key)
        end
      else for_items rest w
  end.

Definition print_results (w : world) : world * outcome :=
  for_items (config w) w.

(** Entries whose value compares equal to [1]. *)
Definition ones (config : configuration) : configuration :=
  filter (fun kv => kv.2 = 1) config.

(** [labelled entries lines]: [lines] are, one for one and in order, the
    table's sentences for the keys of [entries]. *)
Definition labelled (entries : configuration) (lines : list string) : Prop :=
  Forall2 (fun kv line => result !! kv.1 = Some line) entries lines.

(** The rows of the scenario table, as pairs of configuration keys. *)
Definition rows : list (string * string) :=
  [("0", "1"); ("2", "3"); ("4", "5")]%string.

Definition is_one (v : option Z) : bool :=
  match v with Some 1 => true | _ => false end.

Definition one_in_row (config : configuration) (row : string * string) : bool :=
  xorb (is_one (getitem config row.1)) (is_one (getitem config row.2)).

Definition one_per_row (config : configuration) : bool :=
  forallb (one_in_row config) rows.

(** [1] when [config[key]] is present and equal to one, [0] otherwise. *)
Definition hit (config : configuration) (key : string) : nat :=
  if is_one (getitem config key) then 1%nat else 0%nat.

(** Sample configurations: a valid exchange, nobody buying anything, Vincent
    buying for both others, and a dict with two stray variables. *)
Definition config_cycle : configuration :=
  [("0", 1); ("1", 0); ("2", 0); ("3", 1); ("4", 1); ("5", 0)]%string.

Definition config_all_zero : configuration :=
  [("0", 0); ("1", 0); ("2", 0); ("3", 0); ("4", 0); ("5", 0)]%string.

Definition config_row_clash : configuration :=
  [("0", 1); ("1", 1); ("2", 0); ("3", 0); ("4", 0); ("5", 0)]%string.

Definition config_stray : configuration :=
  [("6", 0); ("0", 1); ("2", 5); ("7", 1); ("5", 1)]%string.

(** ** Quadratic assignment sample *)

Module Qap.

(** The keys the two dicts of the notebook are indexed with: a pair
    [(i, j)] for [variable_map], a string for the solver's configuration. *)
Inductive pykey : Type :=
| KPair (i j : Z)
| KStr (s : string).

(** The exceptions the cells can raise. *)
Inductive exn : Type :=
| IndexError
| KeyError (key : pykey)
| OverflowError.

(** A computation either yields a value or raises.  A raise ends the cell;
    what [terms_list] held at that point is not kept. *)
Inductive res (A : Type) : Type :=
| Ok (a : A)
| Raise (e : exn).

Arguments Ok {A} a.
Arguments Raise {A} e.

#[global] Instance res_bind : MBind res :=
  fun A B f m => match m with Ok a => f a | Raise e => Raise e end.

#[global] Instance res_ret : MRet res := fun A a => Ok a.

(** [l[i]] on a Python list: a negative index counts from the end, anything
    outside the list raises [IndexError]. *)
Definition list_getitem {A : Type} (l : list A) (i : Z) : res A :=
  let pos := if i <? 0 then i + Z.of_nat (length l) else i in
  if pos <? 0 then Raise IndexError
  else match l !! Z.to_nat pos with
       | Some a => Ok a
       | None => Raise IndexError
       end.

(** [d[key] = val] on a dict kept as its items in insertion order: a present
    key keeps its place and takes the new value, a new key goes last. *)
Definition setitem (d : list (Z * Z * Z)) (key : Z * Z) (val : Z)
    : list (Z * Z * Z) :=
  if decide (key ∈ d.*1)
  then (fun kv => if decide (kv.1 = key) then (key, val) else kv) <$> d
  else d ++ [(key, val)].

(** [d[key]], raising [KeyError] on a key that is absent. *)
Fixpoint dict_getitem (d : list (Z * Z * Z)) (key : Z * Z) : res Z :=
  match d with
  | [] => Raise (KeyError (KPair key.1 key.2))
  | (k, v) :: rest => if decide (k = key) then Ok v else dict_getitem rest key
  end.

(** The two nested [for ... in range(n)] loops filling [variable_map]. *)
Definition variable_map (n : Z) : list (Z * Z * Z) :=
  foldl (fun variable_map i =>
           foldl (fun variable_map j => setitem variable_map (i, j) (i * n + j))
                 variable_map (seqZ 0 n))
        [] (seqZ 0 n).

(** What [terms_list] holds: monomial terms, whose coefficient is the float
    produced by the division by [2.0] (a rational with denominator 2), and
    grouped terms, whose weight and inner terms are built from integer
    literals. *)
Inductive entry : Type :=
| Term (c : Q) (indices : list Z)
| SlcTerm (c : Z) (terms : list Term.t).

(** A [for] loop whose body updates the loop state or raises. *)
Fixpoint for_each {A S : Type} (body : A -> S -> res S) (l : list A) (s : S)
    : res S :=
  match l with
  | [] => Ok s
  | a :: rest => s' ← body a s; for_each body rest s'
  end.

(** [[f(a) for a in l]]. *)
Fixpoint comprehension {A B : Type} (f : A -> res B) (l : list A)
    : res (list B) :=
  match l with
  | [] => Ok []
  | a :: rest => b ← f a; bs ← comprehension f rest; mret (b :: bs)
  end.

(** The conversion of an integer to a float that [z / 2.0] starts with, the
    float given by its (integer) value: [z] itself while it fits in the 53
    bits of a double; otherwise the nearest multiple of the right power of
    two, a tie going to the even one; [OverflowError] when that is 2^1024 or
    more. *)
Definition float_of_int (z : Z) : res Z :=
  let a := Z.abs z in
  let shift := Z.log2 a - 52 in
  if shift <=? 0 then Ok z
  else
    let q := a / 2 ^ shift in
    let r := a mod 2 ^ shift in
    let tie := 2 ^ (shift - 1) in
    let q' :=
      if r <? tie then q
      else if tie <? r then q + 1
      else if Z.even q then q else q + 1 in
    let v := q' * 2 ^ shift in
    if 2 ^ 1024 <=? v then Raise OverflowError else Ok (Z.sgn z * v).

(** Half of a float with an integer value; dividing such a float by two
    is exact. *)
Definition half (z : Z) : Q := Qmake z 2.

(** [z / 2.0] for an integer [z]. *)
Definition true_divide_two (z : Z) : res Q :=
  f ← float_of_int z; mret (half f).

(** [[var for var in variable_map if var[0] != i and var[1] != j]]. *)
Definition neighbours (variable_map : list (Z * Z * Z)) (i j : Z)
    : list (Z * Z) :=
  filter (fun var => var.1 ≠ i ∧ var.2 ≠ j) variable_map.*1.

(** The body of the inner loop: one term for the ordered pair [x1], [x2]. *)
Definition pair_term (variable_map : list (Z * Z * Z))
    (locations facilities : list (list Z)) (x1 x2 : Z * Z) : res entry :=
  let '(i, j) := x1 in
  let '(i2, j2) := x2 in
  row ← list_getitem locations j;
  t ← list_getitem row j2;
  frow ← list_getitem facilities i;
  p ← list_getitem frow i2;
  c ← true_divide_two (t * p);
  a ← dict_getitem variable_map x1;
  b ← dict_getitem variable_map x2;
  mret (Term c [a; b]).

(** [for x1 in variable_map: ... for x2 in neighbours: terms_list.append(...)]. *)
Definition pairwise_terms (variable_map : list (Z * Z * Z))
    (locations facilities : list (list Z)) (terms_list : list entry)
    : res (list entry) :=
  for_each
    (fun x1 terms_list =>
       for_each
         (fun x2 terms_list =>
            t ← pair_term variable_map locations facilities x1 x2;
            mret (terms_list ++ [t]))
         (neighbours variable_map x1.1 x1.2) terms_list)
    variable_map.*1 terms_list.

(** One grouped term: the unit terms of [var i 0 .. var i (n-1)] and the
    constant [k], weighted by [P]. *)
Definition slc_term (variable_map : list (Z * Z * Z)) (n P k : Z)
    (var : Z -> Z -> Z * Z) (i : Z) : res entry :=
  ts ← comprehension
         (fun j => a ← dict_getitem variable_map (var i j);
                   mret (Term.Term 1 [a]))
         (seqZ 0 n);
  mret (SlcTerm P (ts ++ [Term.Term k []])).

(** [for i in range(n): terms_list.append(SlcTerm(...))]. *)
Definition constraints (variable_map : list (Z * Z * Z)) (n P k : Z)
    (var : Z -> Z -> Z * Z) (terms_list : list entry) : res (list entry) :=
  for_each
    (fun i terms_list =>
       s ← slc_term variable_map n P k var i; mret (terms_list ++ [s]))
    (seqZ 0 n) terms_list.

(** The term-building cells in sequence, for any size, matrices, penalty and
    offset: pairwise costs, facility constraints over [(i, j)], location
    constraints over [(j, i)]. *)
Definition build (n : Z) (locations facilities : list (list Z)) (P k : Z)
    : res (list entry) :=
  let variable_map := variable_map n in
  terms_list ← pairwise_terms variable_map locations facilities [];
  terms_list ← constraints variable_map n P k (fun i j => (i, j)) terms_list;
  constraints variable_map n P k (fun i j => (j, i)) terms_list.

(** The notebook's data. *)
Definition n : Z := 3.

Definition locations : list (list Z) :=
  [[0; 2; 20]; [2; 0; 14]; [20; 14; 0]].

Definition facilities : list (list Z) :=
  [[0; 100; 0]; [100; 0; 5]; [0; 5; 0]].

Definition P : Z := 1000.

Definition k : Z := -1.

Definition terms_list : res (list entry) := build n locations facilities P k.

(** What an entry contributes to the objective: a monomial as in the
    introduction, a grouped term [P * (sum_i c_i x_i + k)^2] as in the
    section on penalty terms. *)
Definition entry_value (x : assignment) (e : entry) : Q :=
  match e with
  | Term c ids => (c * inject_Z (product x ids))%Q
  | SlcTerm c ts => inject_Z (c * cost x ts ^ 2)
  end.

Definition objective (x : assignment) (l : list entry) : Q :=
  foldr (fun e acc => (entry_value x e + acc)%Q) 0%Q l.

(** [f"Facility {v[0]} assigned to Location {v[1]}"]. *)
Definition sentence (v : Z * Z) : string :=
  "Facility " +:+ pretty v.1 +:+ " assigned to Location " +:+ pretty v.2.

(** The last cell: [for v in variable_map], look the id up, probe the
    configuration under [str(var_id)] and print when it holds 1. *)
Fixpoint for_variables (vars : list (Z * Z)) (variable_map : list (Z * Z * Z))
    (w : world) : world * res () :=
  match vars with
  | [] => (w, Ok ())
  | v :: rest =>
      match dict_getitem variable_map v with
      | Raise e => (w, Raise e)
      | Ok var_id =>
          match getitem (config w) (pretty var_id) with
          | None => (w, Raise (KeyError (KStr (pretty var_id))))
          | Some val =>
              if val =? 1
              then for_variables rest variable_map (print (sentence v) w)
              else for_variables rest variable_map w
          end
      end
  end.

Definition report (n : Z) (w : world) : world * res () :=
  for_variables (variable_map n).*1 (variable_map n) w.

End Qap.

(** ** Vocabulary for the statements about the quadratic assignment sample *)

(** The entry of row [r], column [c], when the matrix has one. *)
Definition entry_at (m : list (list Z)) (r c : Z) : option Z :=
  row ← m !! Z.to_nat r; row !! Z.to_nat c.

(** [covers n m]: the matrix has every entry off its diagonal within the
    first [n] rows and columns. *)
Definition covers (n : Z) (m : list (list Z)) : Prop :=
  forall r c, 0 <= r < n -> 0 <= c < n -> r <> c -> is_Some (entry_at m r c).

(** Every product the loop divides by [2.0] is below 2^53 in magnitude, so
    that its conversion to a float is exact. *)
Definition products_exact (n : Z) (locations facilities : list (list Z)) : Prop :=
  forall i j i2 j2 t p,
    0 <= i < n -> 0 <= j < n -> 0 <= i2 < n -> 0 <= j2 < n ->
    i2 <> i -> j2 <> j ->
    entry_at locations j j2 = Some t -> entry_at facilities i i2 = Some p ->
    Z.abs (t * p) < 2 ^ 53.

(** The entry, or 0 where the matrix has none. *)
Definition entry_or_zero (m : list (list Z)) (r c : Z) : Z :=
  default 0 (entry_at m r c).

(** The term the inner loop appends for the ordered pair [x1], [x2]. *)
Definition pair_entry (n : Z) (locations facilities : list (list Z))
    (x1 x2 : Z * Z) : Qap.entry :=
  Qap.Term
    (Qap.half (entry_or_zero locations x1.2 x2.2 * entry_or_zero facilities x1.1 x2.1))
    [x1.1 * n + x1.2; x2.1 * n + x2.2].

(** All of them, in the order the two loops visit the pairs. *)
Definition pair_entries (n : Z) (locations facilities : list (list Z))
    : list Qap.entry :=
  (Qap.variable_map n).*1 ≫= fun x1 =>
    pair_entry n locations facilities x1
      <$> Qap.neighbours (Qap.variable_map n) x1.1 x1.2.

(** [range(n)] without [i]. *)
Definition others (n i : Z) : list Z := filter (fun i' => i' ≠ i) (seqZ 0 n).

(** What every pairwise term looks like, read off its two ids. *)
Definition pair_shaped (n : Z) (locations facilities : list (list Z))
    (e : Qap.entry) : Prop :=
  exists a b t p,
    e = Qap.Term (Qap.half (t * p)) [a; b] /\
    0 <= a < n * n /\ 0 <= b < n * n /\
    a / n <> b / n /\ a mod n <> b mod n /\
    entry_at locations (a mod n) (b mod n) = Some t /\
    entry_at facilities (a / n) (b / n) = Some p.

(** Two matrices with the same entries off the diagonal, present or not. *)
Definition agree_off_diagonal (n : Z) (m m' : list (list Z)) : Prop :=
  forall r c, 0 <= r < n -> 0 <= c < n -> r <> c -> entry_at m r c = entry_at m' r c.

(** A matrix equal to its transpose within the first [n] rows and columns. *)
Definition symmetric (n : Z) (m : list (list Z)) : Prop :=
  forall r c, 0 <= r < n -> 0 <= c < n -> entry_at m r c = entry_at m c r.

(** The variable ids an entry mentions. *)
Definition entry_ids (e : Qap.entry) : list Z :=
  match e with
  | Qap.Term _ ids => ids
  | Qap.SlcTerm _ ts => concat (Term.indices <$> ts)
  end.

(** The ids of facility [i] (a row of the map) and of location [i] (a
    column), in loop order. *)
Definition row_ids (n i : Z) : list Z := (fun j => i * n + j) <$> seqZ 0 n.

Definition col_ids (n i : Z) : list Z := (fun j => j * n + i) <$> seqZ 0 n.

(** The grouped term over the given ids: unit terms and the constant [k]. *)
Definition group (P k : Z) (ids : list Z) : Qap.entry :=
  Qap.SlcTerm P (((fun a => Term.Term 1 [a]) <$> ids) ++ [Term.Term k []]).

(** How many of the ids are set to one. *)
Definition set_among (x : assignment) (ids : list Z) : Z :=
  Z.of_nat (length (filter (fun a => x a = 1) ids)).

(** The two kinds of entries. *)
Definition is_monomial (e : Qap.entry) : Prop :=
  match e with Qap.Term _ _ => True | Qap.SlcTerm _ _ => False end.

Definition is_grouped (e : Qap.entry) : Prop :=
  match e with Qap.Term _ _ => False | Qap.SlcTerm _ _ => True end.

(** The assignment that reads variable [k] off the [k]-th place of a list. *)
Definition of_values (values : list Z) : assignment :=
  fun k => default 0 (values !! Z.to_nat k).

(** All lists of [len] values drawn from 0 and 1. *)
Fixpoint binary_lists (len : nat) : list (list Z) :=
  match len with
  | O => [[]]
  | S len => binary_lists len ≫= fun l => [0 :: l; 1 :: l]
  end.

(** The notebook's recorded answer: ids 0, 4 and 8 set. *)
Definition recorded_values : list Z := [1; 0; 0; 0; 1; 0; 0; 0; 1].

(** All ids of the entry are below [bound]. *)
Definition within (e : Qap.entry) (bound : Z) : Prop :=
  Forall (fun a => 0 <= a < bound) (entry_ids e).

(** The objective at [values] is at least 270, and is 270 only at the
    recorded answer. *)
Definition optimum_check (l : list Qap.entry) (values : list Z) : bool :=
  let v := Qap.objective (of_values values) l in
  Qle_bool (inject_Z 270) v &&
  (if Qeq_bool v (inject_Z 270) then bool_decide (values = recorded_values) else true).

(** The configuration key of the variable of a pair, [str(i * n + j)]. *)
Definition key_of (n : Z) (v : Z * Z) : string := pretty (v.1 * n + v.2).

(** The pair's variable has an entry in the configuration and it is 1. *)
Definition chosen (n : Z) (cfg : configuration) (v : Z * Z) : Prop :=
  getitem cfg (key_of n v) = Some 1.

(** The pair's variable has an entry in the configuration. *)
Definition present (n : Z) (cfg : configuration) (v : Z * Z) : Prop :=
  is_Some (getitem cfg (key_of n v)).

#[global] Instance chosen_dec (n : Z) (cfg : configuration) (v : Z * Z)
    : Decision (chosen n cfg v) :=
  decide (getitem cfg (key_of n v) = Some 1).

(** The two gift cycles, as the values of x0..x5. *)
Definition cycle_tess : list Z := [1; 0; 0; 1; 1; 0].

Definition cycle_uma : list Z := [0; 1; 1; 0; 0; 1].

(** The dict the solver hands back for an assignment of x0..x5. *)
Definition config_of (x : assignment) : configuration :=
  (fun k => (pretty k, x k)) <$> seqZ 0 6.

(** The objective vanishes at [values] exactly when they are a gift cycle. *)
Definition minimiser_check (values : list Z) : bool :=
  bool_decide (cost (of_values values) terms = 0 <->
               values = cycle_tess \/ values = cycle_uma).

(** The matrix of distances with its last row cut short. *)
Definition short_locations : list (list Z) := [[0; 2; 20]; [2; 0; 14]; [20]].

(** The matrix of distances with its last row cut short and an entry beyond
    the range of a float. *)
Definition huge_locations : list (list Z) :=
  [[0; 10 ^ 400; 1]; [1; 0; 1]; [1]].

(** The matrix of distances with another diagonal. *)
Definition marked_locations : list (list Z) :=
  [[7; 2; 20]; [2; 7; 14]; [20; 14; 7]].

(** The configuration recorded in the notebook's output. *)
Definition recorded_config : configuration :=
  [("0", 1); ("1", 0); ("2", 0); ("3", 0); ("4", 1); ("5", 0); ("6", 0);
   ("7", 0); ("8", 1)]%string.

(** A configuration that stops short of id 4. *)
Definition partial_config : configuration :=
  [("0", 1); ("1", 0); ("2", 0); ("3", 1)]%string.

(** ** Basic facts about [build_terms] *)

Lemma build_terms_unfold (i j : Z) :
  build_terms i j =
  [Term 1 [i; i]; Term 1 [j; j]; Term 2 [i; j];
   Term (-2) [i]; Term (-2) [j]; Term 1 []].
Proof. reflexivity. Qed.

Section Polynomial.

Variable x : assignment.

Lemma cost_app (ts us : list Term.t) :
  cost x (ts ++ us) = cost x ts + cost x us.
Proof.
  induction ts as [|t ts IH]; simpl.
  - reflexivity.
  - rewrite IH. lia.
Qed.

Lemma cost_build_terms (i j : Z) :
  cost x (build_terms i j) = (x i + x j - 1) ^ 2.
Proof.
  rewrite build_terms_unfold. unfold cost, term_value, product. simpl.
  lia.
Qed.

Lemma cost_terms :
  cost x terms =
  (x 0 + x 1 - 1) ^ 2 + (x 2 + x 3 - 1) ^ 2 + (x 4 + x 5 - 1) ^ 2 +
  (x 2 + x 4 - 1) ^ 2 + (x 0 + x 5 - 1) ^ 2 + (x 1 + x 3 - 1) ^ 2.
Proof.
  unfold terms. rewrite !cost_app, !cost_build_terms. lia.
Qed.

End Polynomial.

(** The assembled list is one [build_terms] call per constraint pair. *)
Lemma terms_by_pairs :
  terms = flat_map (fun p => build_terms p.1 p.2) constraint_pairs.
Proof. reflexivity. Qed.

Lemma square_of_pair (a b : Z) :
  (a = 0 \/ a = 1) -> (b = 0 \/ b = 1) ->
  (a + b - 1) ^ 2 = if xorb (Z.eqb a 1) (Z.eqb b 1) then 0 else 1.
Proof. intros [-> | ->] [-> | ->]; reflexivity. Qed.

Lemma assign_same (k v : Z) (x : assignment) : assign k v x k = v.
Proof. unfold assign. by rewrite Z.eqb_refl. Qed.

Lemma assign_other (k v n : Z) (x : assignment) :
  n <> k -> assign k v x n = x n.
Proof. unfold assign. intros Hne. by destruct (Z.eqb_spec n k). Qed.

(** ** Claims about [build_terms] and the assembled objective *)

(** C1: for distinct indices [i] and [j], [build_terms i j] is a list of
    exactly six terms, with coefficients 1, 1, 2, -2, -2, 1 on the index lists
    (i,i), (j,j), (i,j), (i), (j), () in that order, and these are the
    monomials of the expansion of [(x_i + x_j - 1)^2]. *)
Theorem build_terms_six_monomials (i j : Z) :
  i <> j ->
  length (build_terms i j) = 6%nat /\
  Term.c <$> build_terms i j = [1; 1; 2; -2; -2; 1] /\
  Term.indices <$> build_terms i j = [[i; i]; [j; j]; [i; j]; [i]; [j]; []] /\
  forall x : assignment, cost x (build_terms i j) = (x i + x j - 1) ^ 2.
Proof.
  intros _. do 3 (split; [reflexivity |]).
  intros x. apply cost_build_terms.
Qed.

Lemma build_terms_six_monomials_witness :
  length (build_terms 0 1) = 6%nat /\
  Term.c <$> build_terms 0 1 = [1; 1; 2; -2; -2; 1] /\
  Term.indices <$> build_terms 0 1 = [[0; 0]; [1; 1]; [0; 1]; [0]; [1]; []] /\
  forall x : assignment, cost x (build_terms 0 1) = (x 0 + x 1 - 1) ^ 2.
Proof. apply (build_terms_six_monomials 0 1). lia. Defined.

(** C2: for distinct [i] and [j], the polynomial of [build_terms i j] costs
    1, 0, 0, 1 at (x_i, x_j) = (0,0), (0,1), (1,0), (1,1), whatever the other
    variables are. *)
Theorem build_terms_truth_table (i j : Z) (x : assignment) :
  i <> j ->
  cost (assign i 0 (assign j 0 x)) (build_terms i j) = 1 /\
  cost (assign i 0 (assign j 1 x)) (build_terms i j) = 0 /\
  cost (assign i 1 (assign j 0 x)) (build_terms i j) = 0 /\
  cost (assign i 1 (assign j 1 x)) (build_terms i j) = 1.
Proof.
  intros Hne. rewrite !cost_build_terms, !assign_same.
  rewrite !(assign_other i _ j) by congruence.
  rewrite !assign_same. repeat split.
Qed.

Lemma build_terms_truth_table_witness :
  cost (assign 2 0 (assign 4 0 (fun _ => 7))) (build_terms 2 4) = 1 /\
  cost (assign 2 0 (assign 4 1 (fun _ => 7))) (build_terms 2 4) = 0 /\
  cost (assign 2 1 (assign 4 0 (fun _ => 7))) (build_terms 2 4) = 0 /\
  cost (assign 2 1 (assign 4 1 (fun _ => 7))) (build_terms 2 4) = 1.
Proof. apply (build_terms_truth_table 2 4 (fun _ => 7)). lia. Defined.

(** With equal indices there is a single variable, and the second and third
    rows of the table cannot be formed: both values cost 1. *)
Example build_terms_equal_indices (x : assignment) :
  cost (assign 3 0 x) (build_terms 3 3) = 1 /\
  cost (assign 3 1 x) (build_terms 3 3) = 1.
Proof. rewrite !cost_build_terms, !assign_same. split; reflexivity. Qed.

(** C3: on every 0/1 assignment of x0..x5 the assembled objective is 0 when
    each of the six pairs has exactly one variable set, and strictly positive
    otherwise. *)
Theorem terms_zero_iff_feasible (x : assignment) :
  binary_on [0; 1; 2; 3; 4; 5] x ->
  (feasible x = true -> cost x terms = 0) /\
  (feasible x = false -> 0 < cost x terms).
Proof.
  intros Hbin. rewrite cost_terms.
  unfold binary_on in Hbin. rewrite !Forall_cons in Hbin.
  destruct Hbin as (H0 & H1 & H2 & H3 & H4 & H5 & _).
  rewrite !square_of_pair by assumption.
  unfold feasible, constraint_pairs, exactly_one; simpl.
  split; intros Hf;
    destruct (xorb (x 0 =? 1) (x 1 =? 1)), (xorb (x 2 =? 1) (x 3 =? 1)),
      (xorb (x 4 =? 1) (x 5 =? 1)), (xorb (x 2 =? 1) (x 4 =? 1)),
      (xorb (x 0 =? 1) (x 5 =? 1)), (xorb (x 1 =? 1) (x 3 =? 1));
    simpl in Hf; try discriminate Hf; lia.
Qed.

Lemma terms_zero_iff_feasible_witness :
  feasible vincent_tess_uma = true /\ cost vincent_tess_uma terms = 0.
Proof.
  split; [reflexivity |].
  apply (terms_zero_iff_feasible vincent_tess_uma).
  - unfold binary_on.
    repeat (apply Forall_cons; split; [vm_compute; auto |]).
    apply Forall_nil_2.
  - reflexivity.
Defined.

(** C4: the assembled list holds 36 terms, and every index they mention is
    one of the six variable ids 0..5. *)
Theorem terms_count_and_indices :
  length terms = 36%nat /\
  Forall (fun t => Forall (fun k => 0 <= k < 6) (Term.indices t)) terms.
Proof.
  split; [reflexivity |].
  unfold terms. rewrite !build_terms_unfold. simpl.
  repeat (apply Forall_cons; split; [repeat constructor; lia |]).
  apply Forall_nil_2.
Qed.

Lemma append_last (l : list (list Term.t)) (ts : list Term.t) (t : Term.t)
    (out : list string) :
  Effects.append (length l) t (Effects.Interp (l ++ [ts]) out) =
  (Effects.Interp (l ++ [ts ++ [t]]) out, inr ()).
Proof.
  unfold Effects.append; simpl.
  rewrite list_lookup_middle by done.
  by rewrite insert_app_r_alt, Nat.sub_diag by done.
Qed.





(** With the record constructor the list made is the one of the pure
    [build_terms]. *)
Lemma build_terms_accepting (i j : Z) (s : Effects.interp) :
  Effects.build_terms Effects.accepting i j s =
  (Effects.Interp (Effects.lists s ++ [build_terms i j]) (Effects.printed s),
   inr (length (Effects.lists s))).
Proof.
  destruct s as [l out].
  unfold Effects.build_terms, mbind, Effects.M_bind, mret, Effects.M_ret,
    Effects.new_list, Effects.call_Term, Effects.accepting; simpl.
  rewrite (append_last l []); simpl.
  by rewrite !append_last.
Qed.

(** A constructor that checked indices would make the same body raise: the
    absence of an error is not built into the model. *)
Example build_terms_validating :
  Effects.build_terms (Effects.validating 6) 0 7 Effects.busy =
  (Effects.Interp (Effects.lists Effects.busy ++ [[Term 1 [0; 0]]])
                  (Effects.printed Effects.busy),
   inl (Effects.Exception "IndexError")).
Proof. reflexivity. Qed.

Example build_terms_unchecked :
  build_terms (-4) (-4) =
  [Term 1 [-4; -4]; Term 1 [-4; -4]; Term 2 [-4; -4];
   Term (-2) [-4]; Term (-2) [-4]; Term 1 []] /\
  Term.indices <$> build_terms 77 6 = [[77; 77]; [6; 6]; [77; 6]; [77]; [6]; []].
Proof. split; reflexivity. Qed.

(** C9: swapping the two arguments does not change the polynomial. *)
Theorem build_terms_symmetric (i j : Z) (x : assignment) :
  cost x (build_terms i j) = cost x (build_terms j i).
Proof. rewrite !cost_build_terms. f_equal. lia. Qed.

(** ** The sentence table *)

Lemma table_keys_eq : table_keys = ["0"; "1"; "2"; "3"; "4"; "5"]%string.
Proof. reflexivity. Qed.

Lemma result_lookup_None (key : string) :
  result !! key = None <-> key ∉ table_keys.
Proof. unfold result, table_keys. by rewrite not_elem_of_list_to_map. Qed.

Lemma result_lookup_Some (key : string) :
  is_Some (result !! key) <-> key ∈ table_keys.
Proof.
  rewrite <- not_eq_None_Some, result_lookup_None.
  split; [apply dec_stable | auto].
Qed.

(** ** The loop of [print_results] *)

Lemma ones_cons_one (key : string) (rest : configuration) :
  ones ((key, 1) :: rest) = (key, 1) :: ones rest.
Proof. unfold ones. by rewrite filter_cons_True. Qed.

Lemma ones_cons_other (key : string) (val : Z) (rest : configuration) :
  val <> 1 -> ones ((key, val) :: rest) = ones rest.
Proof. intros Hne. unfold ones. by rewrite filter_cons_False. Qed.

(** What one pass over [items] does, whatever the world it starts in: it
    appends some [lines] to standard output and leaves the configuration
    alone.  After a return the lines are the sentences of all entries equal to
    one; after a [KeyError] they are those of the entries before the first
    entry equal to one whose key the table lacks. *)
Lemma for_items_spec (items : configuration) :
  exists (lines : list string) (o : outcome),
    (forall w, for_items items w = (World (config w) (stdout w ++ lines), o)) /\
    match o with
    | Returned => labelled (ones items) lines
    | KeyError key =>
        exists pre post,
          items = pre ++ (key, 1) :: post /\
          result !! key = None /\
          labelled (ones pre) lines
    end.
Proof.
  induction items as [|[key val] rest (lines & o & Hrun & Hout)].
  - exists [], Returned. split; [| constructor].
    intros [cfg out]; simpl. by rewrite app_nil_r.
  - simpl. destruct (Z.eqb_spec val 1) as [-> | Hne].
    + destruct (result !! key) as [line|] eqn:Hkey.
      * exists (line :: lines), o. split.
        { intros w. rewrite Hrun. simpl. by rewrite <- app_assoc. }
        destruct o as [|bad].
        { rewrite ones_cons_one. by constructor. }
        destruct Hout as (pre & post & -> & Hbad & Hpre).
        exists ((key, 1) :: pre), post. split_and!; [done | done |].
        rewrite ones_cons_one. by constructor.
      * exists [], (KeyError key). split.
        { intros [cfg out]; simpl. by rewrite app_nil_r. }
        exists [], rest. split_and!; [done | done | constructor].
    + exists lines, o. split; [done |].
      destruct o as [|bad].
      { by rewrite ones_cons_other. }
      destruct Hout as (pre & post & -> & Hbad & Hpre).
      exists ((key, val) :: pre), post. split_and!; [done | done |].
      by rewrite ones_cons_other.
Qed.

Lemma labelled_in_table (entries : configuration) (lines : list string) :
  labelled entries lines -> Forall (fun kv => kv.1 ∈ table_keys) entries.
Proof.
  induction 1 as [|kv line entries lines Hkv _ IH]; constructor; [| done].
  apply result_lookup_Some. by exists line.
Qed.

(** With every key in the table the loop cannot fail. *)
Lemma print_results_in_table (w : world) :
  Forall (fun kv => kv.1 ∈ table_keys) (config w) ->
  exists lines,
    print_results w = (World (config w) (stdout w ++ lines), Returned) /\
    labelled (ones (config w)) lines.
Proof.
  intros Hkeys. unfold print_results.
  destruct (for_items_spec (config w)) as (lines & [|bad] & Hrun & Hout).
  - exists lines. by rewrite Hrun.
  - destruct Hout as (pre & post & Hcfg & Hbad & _).
    apply result_lookup_None in Hbad. destruct Hbad.
    rewrite Forall_forall in Hkeys.
    apply (Hkeys (bad, 1)). rewrite Hcfg. set_solver.
Qed.

(** ** Counting the printed lines *)

Lemma NoDup_table_keys : NoDup table_keys.
Proof. compute_done. Qed.

Lemma getitem_elem_of (cfg : configuration) (key : string) (val : Z) :
  dict_like cfg -> (key, val) ∈ cfg -> getitem cfg key = Some val.
Proof.
  unfold dict_like.
  induction cfg as [|[k v] rest IH]; intros Hnd Hin.
  - by apply elem_of_nil in Hin.
  - rewrite fmap_cons, NoDup_cons in Hnd. destruct Hnd as [Hfresh Hnd].
    apply elem_of_cons in Hin as [Heq | Hin]; simpl.
    + injection Heq as -> ->. by rewrite decide_True.
    + rewrite decide_False; [by apply IH |].
      intros ->. apply Hfresh, list_elem_of_fmap. by exists (key, val).
Qed.

Lemma sum_list_with_agree {A : Type} (f g : A -> nat) (l : list A) :
  Forall (fun a => f a = g a) l -> sum_list_with f l = sum_list_with g l.
Proof. induction 1 as [|a l Ha _ IH]; simpl; [done |]. by rewrite Ha, IH. Qed.

Lemma sum_list_with_keys (g : string -> nat) (cfg : configuration) :
  sum_list_with g cfg.*1 = sum_list_with (fun kv => g kv.1) cfg.
Proof. induction cfg as [|kv rest IH]; csimpl; [done |]. by rewrite IH. Qed.

Lemma length_ones (cfg : configuration) :
  length (ones cfg) =
  sum_list_with (fun kv => if decide (kv.2 = 1) then 1%nat else 0%nat) cfg.
Proof.
  induction cfg as [|[key val] rest IH]; simpl; [done |].
  destruct (decide (val = 1)) as [-> | Hne].
  - rewrite ones_cons_one. simpl. by rewrite IH.
  - rewrite ones_cons_other by done. by rewrite IH.
Qed.

(** In a dict the entries equal to one are counted by probing each key. *)
Lemma length_ones_hits (cfg : configuration) :
  dict_like cfg -> length (ones cfg) = sum_list_with (hit cfg) cfg.*1.
Proof.
  intros Hnd. rewrite length_ones, sum_list_with_keys.
  apply sum_list_with_agree, Forall_forall. intros [key val] Hin.
  unfold hit; simpl. rewrite (getitem_elem_of cfg key val) by done. simpl.
  destruct (decide (val = 1)) as [-> | Hne]; [done |].
  destruct val as [|[p|p|]|p]; done.
Qed.

(** ** Claims about [print_results] *)

(** C5: when every key of the configuration is one of '0'..'5',
    [print_results] returns without error, leaves the configuration as it
    was, and prints, in order, exactly the table's sentence of each entry whose
    value is 1 and nothing else; feasibility plays no part, so the number of
    lines is the number of such entries, be it zero or several. *)
Theorem print_results_prints_ones (w : world) :
  Forall (fun kv => kv.1 ∈ table_keys) (config w) ->
  exists lines,
    print_results w = (World (config w) (stdout w ++ lines), Returned) /\
    labelled (ones (config w)) lines /\
    length lines = length (ones (config w)).
Proof.
  intros Hkeys.
  destruct (print_results_in_table w Hkeys) as (lines & Hrun & Hlab).
  exists lines. split_and!; [done | done |].
  symmetry. by eapply Forall2_length.
Qed.

Lemma print_results_prints_ones_witness :
  exists lines,
    print_results (World config_row_clash []) =
      (World config_row_clash ([] ++ lines), Returned) /\
    labelled (ones config_row_clash) lines /\
    length lines = 2%nat.
Proof.
  apply (print_results_prints_ones (World config_row_clash [])).
  simpl. unfold config_row_clash.
  repeat (apply Forall_cons; split; [compute_done |]).
  apply Forall_nil_2.
Defined.

(** Two infeasible configurations, run: nobody buys (no line), and Vincent
    buys for both Tess and Uma (two lines); both calls return normally. *)
Example print_results_all_zero :
  print_results (World config_all_zero []) = (World config_all_zero [], Returned).
Proof. vm_compute. reflexivity. Qed.

Example print_results_row_clash :
  print_results (World config_row_clash []) =
  (World config_row_clash
     ["Vincent buys Tess a gift and writes her a poem.";
      "Vincent buys Uma a gift and writes her a poem."]%string,
   Returned).
Proof. vm_compute. reflexivity. Qed.

(** C6: a configuration whose keys are exactly '0'..'5' and in which each
    row {x0,x1}, {x2,x3}, {x4,x5} has exactly one variable equal to 1 makes
    [print_results] print as many lines as there are rows, that is three. *)
Theorem print_results_line_per_row (w : world) :
  (config w).*1 ≡ₚ table_keys ->
  one_per_row (config w) = true ->
  exists lines,
    print_results w = (World (config w) (stdout w ++ lines), Returned) /\
    length lines = length rows /\ length lines = 3%nat.
Proof.
  intros Hkeys Hrows.
  assert (Hnd : dict_like (config w)).
  { unfold dict_like. rewrite Hkeys. apply NoDup_table_keys. }
  assert (Hin : Forall (fun kv => kv.1 ∈ table_keys) (config w)).
  { apply Forall_forall. intros kv Hkv. rewrite <- Hkeys.
    apply list_elem_of_fmap. by exists kv. }
  destruct (print_results_in_table w Hin) as (lines & Hrun & Hlab).
  exists lines. split; [done |].
  apply Forall2_length in Hlab. rewrite <- Hlab.
  rewrite (length_ones_hits _ Hnd), Hkeys.
  revert Hrows. unfold one_per_row, one_in_row, hit; simpl.
  destruct (is_one (getitem (config w) "0")), (is_one (getitem (config w) "1")),
    (is_one (getitem (config w) "2")), (is_one (getitem (config w) "3")),
    (is_one (getitem (config w) "4")), (is_one (getitem (config w) "5"));
    simpl; intros Hrows; try discriminate Hrows; done.
Qed.

Lemma print_results_line_per_row_witness :
  exists lines,
    print_results (World config_cycle []) =
      (World config_cycle ([] ++ lines), Returned) /\
    length lines = length rows /\ length lines = 3%nat.
Proof.
  apply (print_results_line_per_row (World config_cycle [])).
  - reflexivity.
  - vm_compute. reflexivity.
Defined.

Example print_results_cycle :
  print_results (World config_cycle []) =
  (World config_cycle
     ["Vincent buys Tess a gift and writes her a poem.";
      "Tess buys Uma a gift and writes her a poem.";
      "Uma buys Vincent a gift and writes him a poem."]%string,
   Returned).
Proof. vm_compute. reflexivity. Qed.

(** C7: two runs of [print_results] on the same configuration, whatever was
    printed before either of them, append the same lines to standard output
    and end the same way, and each leaves the configuration as it found it. *)
Theorem print_results_deterministic (w w' : world) :
  config w = config w' ->
  exists (lines : list string) (o : outcome),
    print_results w = (World (config w) (stdout w ++ lines), o) /\
    print_results w' = (World (config w') (stdout w' ++ lines), o).
Proof.
  intros Hsame. unfold print_results. rewrite <- Hsame.
  destruct (for_items_spec (config w)) as (lines & o & Hrun & _).
  exists lines, o. by rewrite !Hrun, <- Hsame.
Qed.

Lemma print_results_deterministic_witness :
  exists (lines : list string) (o : outcome),
    print_results (World config_stray []) =
      (World config_stray ([] ++ lines), o) /\
    print_results (World config_stray ["Human-readable solution:"%string]) =
      (World config_stray (["Human-readable solution:"%string] ++ lines), o).
Proof.
  apply (print_results_deterministic
           (World config_stray [])
           (World config_stray ["Human-readable solution:"%string])).
  reflexivity.
Defined.

(** Running again in the world the first run left behind. *)
Corollary print_results_rerun (w : world) :
  exists (lines : list string) (o : outcome),
    print_results w = (World (config w) (stdout w ++ lines), o) /\
    print_results (print_results w).1 =
      (World (config w) ((stdout w ++ lines) ++ lines), o).
Proof.
  unfold print_results.
  destruct (for_items_spec (config w)) as (lines & o & Hrun & _).
  exists lines, o. rewrite Hrun; simpl. by rewrite Hrun.
Qed.

Lemma labelled_elem_of (entries : configuration) (lines : list string)
    (kv : string * Z) :
  labelled entries lines -> kv ∈ entries -> kv.1 ∈ table_keys.
Proof.
  intros Hlab Hin. apply labelled_in_table in Hlab.
  rewrite Forall_forall in Hlab. by apply Hlab.
Qed.

(** C10: [print_results] raises [KeyError] exactly when some entry has value
    1 and a key outside '0'..'5'.  It then fails at the first such entry in
    iteration order, with the sentences of the earlier entries equal to 1
    already printed; an entry whose value is not 1 is passed over without a
    table lookup, whatever its key. *)
Theorem print_results_key_error (w : world) :
  ((exists key, (print_results w).2 = KeyError key) <->
   (exists kv, kv ∈ config w /\ kv.2 = 1 /\ kv.1 ∉ table_keys)) /\
  (forall key, (print_results w).2 = KeyError key ->
     exists pre post lines,
       config w = pre ++ (key, 1) :: post /\
       (key ∉ table_keys) /\
       Forall (fun kv => kv.2 = 1 -> kv.1 ∈ table_keys) pre /\
       labelled (ones pre) lines /\
       (print_results w).1 = World (config w) (stdout w ++ lines)) /\
  (forall key val rest out,
     val <> 1 ->
     (print_results (World ((key, val) :: rest) out)).2 =
       (print_results (World rest out)).2 /\
     stdout (print_results (World ((key, val) :: rest) out)).1 =
       stdout (print_results (World rest out)).1).
Proof.
  unfold print_results.
  destruct (for_items_spec (config w)) as (lines & o & Hrun & Hout).
  rewrite Hrun; simpl. split_and!.
  - split.
    + intros [key ->]. destruct Hout as (pre & post & Hcfg & Hbad & _).
      exists (key, 1). rewrite Hcfg, <- result_lookup_None. set_solver.
    + intros ([key val] & Hin & Hval & Hbad); simpl in *; subst val.
      destruct o as [|bad]; [| by eexists].
      destruct Hbad.
      apply (labelled_elem_of _ _ (key, 1) Hout).
      unfold ones. by apply list_elem_of_filter.
  - intros key ->. destruct Hout as (pre & post & Hcfg & Hbad & Hpre).
    exists pre, post, lines.
    split_and!; [done | by apply result_lookup_None | | done | done].
    apply Forall_forall. intros [k v] Hin Hv; simpl in *; subst v.
    apply (labelled_elem_of _ _ (k, 1) Hpre).
    unfold ones. by apply list_elem_of_filter.
  - intros key val rest out Hne; simpl.
    destruct (Z.eqb_spec val 1) as [| _]; [done |].
    destruct (for_items_spec rest) as (ls & o' & Hrest & _).
    by rewrite !Hrest.
Qed.

(** A run that fails midway: the stray key '6' holds 0 and is passed over,
    the sentence of '0' is printed, the value 5 under '2' is not 1, and the
    stray key '7', holding 1, raises before '5' is reached. *)
Example print_results_stray :
  print_results (World config_stray []) =
  (World config_stray ["Vincent buys Tess a gift and writes her a poem."%string],
   KeyError "7").
Proof. vm_compute. reflexivity. Qed.

(** ** The variable map of the quadratic assignment sample *)

(** The pairs [(i, j)] over two index lists, row by row. *)
Lemma setitem_fresh (d : list (Z * Z * Z)) (key : Z * Z) (val : Z) :
  key ∉ d.*1 -> Qap.setitem d key val = d ++ [(key, val)].
Proof. intros Hfresh. unfold Qap.setitem. by rewrite decide_False. Qed.

Lemma fill_row (f : Z -> Z) (i : Z) (js : list Z) (d : list (Z * Z * Z)) :
  NoDup js ->
  (forall j, j ∈ js -> (i, j) ∉ d.*1) ->
  foldl (fun d j => Qap.setitem d (i, j) (f j)) d js =
  d ++ ((fun j => ((i, j), f j)) <$> js).
Proof.
  revert d. induction js as [|j js IH]; intros d Hnd Hfresh; simpl.
  - by rewrite app_nil_r.
  - apply NoDup_cons in Hnd as [Hj Hnd].
    rewrite setitem_fresh by (apply Hfresh; left).
    rewrite IH; [by rewrite <- app_assoc | done |].
    intros j' Hj'. rewrite fmap_app, elem_of_app. intros [Hin | Hin].
    + by apply (Hfresh j'); [right |].
    + apply list_elem_of_singleton in Hin. simpl in Hin.
      injection Hin as ->. done.
Qed.

Lemma fill_grid (f : Z -> Z -> Z) (il js : list Z) (d : list (Z * Z * Z)) :
  NoDup il -> NoDup js ->
  (forall i j, i ∈ il -> j ∈ js -> (i, j) ∉ d.*1) ->
  foldl (fun d i => foldl (fun d j => Qap.setitem d (i, j) (f i j)) d js) d il =
  d ++ (il ≫= fun i => (fun j => ((i, j), f i j)) <$> js).
Proof.
  intros Hndi Hndj. revert d Hndi.
  induction il as [|i il IH]; intros d Hndi Hfresh; simpl.
  - by rewrite app_nil_r.
  - apply NoDup_cons in Hndi as [Hi Hndi].
    rewrite (fill_row (f i)); [| done | intros j Hj; apply Hfresh; [left | done]].
    rewrite IH; [by rewrite <- app_assoc | done |].
    intros i' j Hi' Hj. rewrite fmap_app, elem_of_app. intros [Hin | Hin].
    + by apply (Hfresh i' j); [right | |].
    + rewrite <- list_fmap_compose in Hin.
      apply list_elem_of_fmap in Hin as (j' & Heq & _). simpl in Heq.
      injection Heq as -> ->. done.
Qed.

(** The map holds the pairs row by row, [(i, j)] under the id [i * n + j]. *)
Lemma variable_map_row_major (n : Z) :
  Qap.variable_map n =
  seqZ 0 n ≫= fun i => (fun j => ((i, j), i * n + j)) <$> seqZ 0 n.
Proof.
  unfold Qap.variable_map.
  rewrite (fill_grid (fun i j => i * n + j)); [done | | | ].
  - apply NoDup_seqZ.
  - apply NoDup_seqZ.
  - intros i j _ _. apply not_elem_of_nil.
Qed.

Lemma elem_of_variable_map (n : Z) (i j id : Z) :
  ((i, j), id) ∈ Qap.variable_map n <->
  0 <= i < n /\ 0 <= j < n /\ id = i * n + j.
Proof.
  rewrite variable_map_row_major, list_elem_of_bind. split.
  - intros (i' & Hin & Hi'). apply list_elem_of_fmap in Hin as (j' & Heq & Hj').
    injection Heq as -> -> ->.
    apply elem_of_seqZ in Hi', Hj'. lia.
  - intros (Hi & Hj & ->). exists i. split.
    + apply list_elem_of_fmap. exists j. split; [done |]. apply elem_of_seqZ. lia.
    + apply elem_of_seqZ. lia.
Qed.

Lemma fmap_bind_list {A B C : Type} (g : B -> C) (f : A -> list B) (l : list A) :
  g <$> (l ≫= f) = l ≫= fun a => g <$> f a.
Proof.
  induction l as [|a l IH]; [done |].
  by rewrite !bind_cons, fmap_app, IH.
Qed.

Lemma variable_map_keys (n : Z) :
  (Qap.variable_map n).*1 = seqZ 0 n ≫= fun i => (fun j => (i, j)) <$> seqZ 0 n.
Proof.
  rewrite variable_map_row_major, fmap_bind_list.
  apply list_bind_ext; [| done]. intros i.
  by rewrite <- list_fmap_compose.
Qed.

Lemma elem_of_variable_map_keys (n : Z) (i j : Z) :
  (i, j) ∈ (Qap.variable_map n).*1 <-> 0 <= i < n /\ 0 <= j < n.
Proof.
  rewrite list_elem_of_fmap. split.
  - intros ([[i' j'] id] & Heq & Hin). simpl in Heq. injection Heq as <- <-.
    apply elem_of_variable_map in Hin. lia.
  - intros [Hi Hj]. exists ((i, j), i * n + j). split; [done |].
    by apply elem_of_variable_map.
Qed.

Lemma NoDup_variable_map_keys (n : Z) : NoDup (Qap.variable_map n).*1.
Proof.
  rewrite variable_map_keys. apply NoDup_bind.
  - intros i i' [a b] _ _ Hin Hin'.
    apply list_elem_of_fmap in Hin as (? & Heq & _).
    apply list_elem_of_fmap in Hin' as (? & Heq' & _). congruence.
  - intros i _. apply NoDup_fmap_2; [| apply NoDup_seqZ].
    intros ? ? ?. congruence.
  - apply NoDup_seqZ.
Qed.

Lemma dict_getitem_elem_of (d : list (Z * Z * Z)) (key : Z * Z) (val : Z) :
  NoDup d.*1 -> (key, val) ∈ d -> Qap.dict_getitem d key = Qap.Ok val.
Proof.
  induction d as [|[k v] rest IH]; intros Hnd Hin.
  - by apply elem_of_nil in Hin.
  - rewrite fmap_cons, NoDup_cons in Hnd. destruct Hnd as [Hfresh Hnd].
    apply elem_of_cons in Hin as [Heq | Hin]; simpl.
    + injection Heq as -> ->. by rewrite decide_True.
    + rewrite decide_False; [by apply IH |].
      intros ->. apply Hfresh, list_elem_of_fmap. by exists (key, val).
Qed.

Lemma dict_getitem_missing (d : list (Z * Z * Z)) (key : Z * Z) :
  key ∉ d.*1 ->
  Qap.dict_getitem d key = Qap.Raise (Qap.KeyError (Qap.KPair key.1 key.2)).
Proof.
  induction d as [|[k v] rest IH]; intros Hfresh; simpl; [done |].
  rewrite fmap_cons, not_elem_of_cons in Hfresh. destruct Hfresh as [Hne Hfresh].
  rewrite decide_False by done. by apply IH.
Qed.

Lemma variable_map_hit (n i j : Z) :
  0 <= i < n -> 0 <= j < n ->
  Qap.dict_getitem (Qap.variable_map n) (i, j) = Qap.Ok (i * n + j).
Proof.
  intros Hi Hj. apply dict_getitem_elem_of; [apply NoDup_variable_map_keys |].
  apply elem_of_variable_map. lia.
Qed.

Lemma variable_map_miss (n i j : Z) :
  ~ (0 <= i < n /\ 0 <= j < n) ->
  Qap.dict_getitem (Qap.variable_map n) (i, j) =
  Qap.Raise (Qap.KeyError (Qap.KPair i j)).
Proof.
  intros Hout. apply (dict_getitem_missing _ (i, j)).
  by rewrite elem_of_variable_map_keys.
Qed.

(** X1: [variable_map[(i, j)]] is [i * n + j] when both indices are in
    [range(n)] and raises [KeyError] for any other pair. *)
Theorem qap_variable_map_getitem (n i j : Z) :
  Qap.dict_getitem (Qap.variable_map n) (i, j) =
  if bool_decide (0 <= i < n /\ 0 <= j < n)
  then Qap.Ok (i * n + j)
  else Qap.Raise (Qap.KeyError (Qap.KPair i j)).
Proof.
  case_bool_decide as Hin.
  - apply variable_map_hit; lia.
  - by apply variable_map_miss.
Qed.

Lemma bind_seqZ_blocks (n : Z) (m : nat) :
  0 <= n ->
  (seqZ 0 (Z.of_nat m) ≫= fun i => (fun j => i * n + j) <$> seqZ 0 n) =
  seqZ 0 (Z.of_nat m * n).
Proof.
  intros Hn. induction m as [|m IH].
  - done.
  - rewrite seqZ_S, bind_app, IH. simpl. rewrite app_nil_r.
    replace (Z.of_nat (S m) * n) with (Z.of_nat m * n + n) by lia.
    rewrite seqZ_app by lia. f_equal.
    by rewrite fmap_add_seqZ, Z.add_0_r.
Qed.

Lemma variable_map_values (n : Z) :
  0 <= n -> (Qap.variable_map n).*2 = seqZ 0 (n * n).
Proof.
  intros Hn0.
  pose proof (bind_seqZ_blocks n (Z.to_nat n) Hn0) as Hblocks.
  rewrite Z2Nat.id in Hblocks by done. rewrite <- Hblocks.
  rewrite variable_map_row_major, fmap_bind_list.
  apply list_bind_ext; [| done]. intros i.
  by rewrite <- list_fmap_compose.
Qed.

(** X2: for a size [n >= 0] the ids handed out are 0, 1, ..., n*n - 1, in
    iteration order and each once; an id is turned back into its pair by
    division by [n]. *)
Theorem qap_variable_map_ids (n : Z) :
  0 <= n ->
  (Qap.variable_map n).*2 = seqZ 0 (n * n) /\
  (forall id, 0 <= id < n * n ->
     Qap.dict_getitem (Qap.variable_map n) (id / n, id mod n) = Qap.Ok id).
Proof.
  intros Hn0. split; [by apply variable_map_values |].
  intros id Hid. assert (0 < n) by nia.
  pose proof (Z.mod_pos_bound id n). pose proof (Z.div_mod id n).
  assert (0 <= id / n < n).
  { split; [apply Z.div_pos; lia | apply Z.div_lt_upper_bound; lia]. }
  rewrite variable_map_hit by lia. f_equal. lia.
Qed.

(** ** Loops that append *)

Lemma for_each_snoc {A E : Type} (f : A -> Qap.res E) (l : list A) (s : list E) :
  Qap.for_each (fun a s => t ← f a; mret (s ++ [t])) l s =
  (ts ← Qap.comprehension f l; mret (s ++ ts)).
Proof.
  revert s. induction l as [|a l IH]; intros s; simpl.
  - by rewrite app_nil_r.
  - destruct (f a) as [b | e]; simpl; [| done].
    rewrite IH. destruct (Qap.comprehension f l) as [bs | e]; simpl; [| done].
    by rewrite <- app_assoc.
Qed.

Lemma for_each_extend {A E : Type} (g : A -> Qap.res (list E)) (l : list A)
    (s : list E) :
  Qap.for_each (fun a s => ts ← g a; mret (s ++ ts)) l s =
  (tss ← Qap.comprehension g l; mret (s ++ concat tss)).
Proof.
  revert s. induction l as [|a l IH]; intros s; simpl.
  - by rewrite app_nil_r.
  - destruct (g a) as [b | e]; simpl; [| done].
    rewrite IH. destruct (Qap.comprehension g l) as [bs | e]; simpl; [| done].
    by rewrite <- app_assoc.
Qed.

Lemma for_each_ext {A S : Type} (f g : A -> S -> Qap.res S) (l : list A) (s : S) :
  (forall a s, a ∈ l -> f a s = g a s) -> Qap.for_each f l s = Qap.for_each g l s.
Proof.
  revert s. induction l as [|a l IH]; intros s Hfg; simpl; [done |].
  rewrite Hfg by left. destruct (g a s) as [s' | e]; simpl; [| done].
  apply IH. intros a' s'' Ha'. apply Hfg. by right.
Qed.

Lemma comprehension_ok {A B : Type} (f : A -> Qap.res B) (h : A -> B) (l : list A) :
  Forall (fun a => f a = Qap.Ok (h a)) l ->
  Qap.comprehension f l = Qap.Ok (h <$> l).
Proof.
  induction 1 as [|a l Ha _ IH]; simpl; [done |].
  by rewrite Ha, IH.
Qed.

Lemma comprehension_inv {A B : Type} (f : A -> Qap.res B) (l : list A) :
  match Qap.comprehension f l with
  | Qap.Ok bs => Forall2 (fun a b => f a = Qap.Ok b) l bs
  | Qap.Raise e => exists a, a ∈ l /\ f a = Qap.Raise e
  end.
Proof.
  induction l as [|a l IH]; simpl; [constructor |].
  destruct (f a) as [b | e] eqn:Ha; simpl.
  - destruct (Qap.comprehension f l) as [bs | e]; simpl.
    + by constructor.
    + destruct IH as (a' & Hin & Ha'). exists a'. split; [by right | done].
  - exists a. split; [left | done].
Qed.

(** ** Reading the matrices *)

Lemma list_getitem_nonneg {A : Type} (l : list A) (i : Z) :
  0 <= i ->
  Qap.list_getitem l i =
  match l !! Z.to_nat i with Some a => Qap.Ok a | None => Qap.Raise Qap.IndexError end.
Proof.
  intros Hi. unfold Qap.list_getitem. cbv zeta.
  by rewrite !(proj2 (Z.ltb_ge i 0)) by done.
Qed.

Lemma matrix_getitem (m : list (list Z)) (r c : Z) :
  0 <= r -> 0 <= c ->
  (row ← Qap.list_getitem m r; Qap.list_getitem row c) =
  match entry_at m r c with
  | Some z => Qap.Ok z
  | None => Qap.Raise Qap.IndexError
  end.
Proof.
  intros Hr Hc. unfold entry_at. rewrite list_getitem_nonneg by done.
  destruct (m !! Z.to_nat r) as [row |]; simpl; [| done].
  by rewrite list_getitem_nonneg.
Qed.

(** ** The division by [2.0] *)

Lemma float_of_int_exact (z : Z) :
  Z.abs z < 2 ^ 53 -> Qap.float_of_int z = Qap.Ok z.
Proof.
  intros Hz. unfold Qap.float_of_int. cbv zeta.
  assert (Z.log2 (Z.abs z) - 52 <= 0) as Hshift.
  { destruct (decide (Z.abs z = 0)) as [-> | Hne]; [done |].
    assert (Z.log2 (Z.abs z) < 53); [| lia].
    apply Z.log2_lt_pow2; lia. }
  by rewrite (proj2 (Z.leb_le _ _) Hshift).
Qed.

Lemma true_divide_two_exact (z : Z) :
  Z.abs z < 2 ^ 53 -> Qap.true_divide_two z = Qap.Ok (Qap.half z).
Proof.
  intros Hz. unfold Qap.true_divide_two. by rewrite float_of_int_exact.
Qed.

Lemma true_divide_two_raise (z : Z) (e : Qap.exn) :
  Qap.true_divide_two z = Qap.Raise e -> e = Qap.OverflowError.
Proof.
  unfold Qap.true_divide_two.
  destruct (Qap.float_of_int z) as [f | e'] eqn:Hf; [done |].
  intros [= <-]. unfold Qap.float_of_int in Hf. cbv zeta in Hf.
  destruct (Z.log2 (Z.abs z) - 52 <=? 0); [done |].
  match type of Hf with (if ?b then _ else _) = _ => destruct b end;
    congruence.
Qed.

Lemma pair_term_spec (n : Z) (locations facilities : list (list Z))
    (i j i2 j2 : Z) :
  0 <= i < n -> 0 <= j < n -> 0 <= i2 < n -> 0 <= j2 < n ->
  Qap.pair_term (Qap.variable_map n) locations facilities (i, j) (i2, j2) =
  match entry_at locations j j2, entry_at facilities i i2 with
  | Some t, Some p =>
      c ← Qap.true_divide_two (t * p);
      mret (Qap.Term c [i * n + j; i2 * n + j2])
  | _, _ => Qap.Raise Qap.IndexError
  end.
Proof.
  intros Hi Hj Hi2 Hj2. unfold Qap.pair_term.
  pose proof (matrix_getitem locations j j2) as Hloc.
  pose proof (matrix_getitem facilities i i2) as Hfac.
  unfold mbind, Qap.res_bind in *.
  specialize (Hloc ltac:(lia) ltac:(lia)). specialize (Hfac ltac:(lia) ltac:(lia)).
  destruct (Qap.list_getitem locations j) as [row | e] eqn:Hrow; simpl in *.
  - rewrite Hloc.
    destruct (entry_at locations j j2) as [t |]; [| done].
    destruct (Qap.list_getitem facilities i) as [frow | e] eqn:Hfrow; simpl in *.
    + rewrite Hfac.
      destruct (entry_at facilities i i2) as [p |]; [| done].
      destruct (Qap.true_divide_two (t * p)) as [c | e]; simpl; [| done].
      rewrite !variable_map_hit by lia. done.
    + destruct (entry_at facilities i i2); [done | by inversion Hfac].
  - destruct (entry_at locations j j2); [done | by inversion Hloc].
Qed.

Lemma elem_of_neighbours (n i j i2 j2 : Z) :
  (i2, j2) ∈ Qap.neighbours (Qap.variable_map n) i j <->
  0 <= i2 < n /\ 0 <= j2 < n /\ i2 <> i /\ j2 <> j.
Proof.
  unfold Qap.neighbours.
  rewrite list_elem_of_filter, elem_of_variable_map_keys. simpl. tauto.
Qed.

Lemma concat_fmap_bind {A B : Type} (f : A -> list B) (l : list A) :
  concat (f <$> l) = l ≫= f.
Proof. induction l as [|a l IH]; [done |]. by rewrite fmap_cons, bind_cons, <- IH. Qed.

Lemma pair_term_covered (n : Z) (locations facilities : list (list Z))
    (x1 x2 : Z * Z) :
  covers n locations -> covers n facilities ->
  products_exact n locations facilities ->
  x1 ∈ (Qap.variable_map n).*1 ->
  x2 ∈ Qap.neighbours (Qap.variable_map n) x1.1 x1.2 ->
  Qap.pair_term (Qap.variable_map n) locations facilities x1 x2 =
  Qap.Ok (pair_entry n locations facilities x1 x2).
Proof.
  intros Hloc Hfac Hexact Hx1 Hx2. destruct x1 as [i j], x2 as [i2 j2].
  apply elem_of_variable_map_keys in Hx1.
  apply elem_of_neighbours in Hx2. simpl in Hx2.
  rewrite (pair_term_spec n) by lia.
  unfold pair_entry, entry_or_zero; simpl.
  destruct (Hloc j j2) as [t Ht]; [lia | lia | lia |].
  destruct (Hfac i i2) as [p Hp]; [lia | lia | lia |].
  rewrite Ht, Hp. simpl.
  rewrite true_divide_two_exact; [done |].
  apply (Hexact i j i2 j2); (lia || done).
Qed.

Lemma pairwise_terms_comprehension (n : Z) (locations facilities : list (list Z))
    (terms_list : list Qap.entry) :
  Qap.pairwise_terms (Qap.variable_map n) locations facilities terms_list =
  (tss ← Qap.comprehension
           (fun x1 =>
              Qap.comprehension
                (Qap.pair_term (Qap.variable_map n) locations facilities x1)
                (Qap.neighbours (Qap.variable_map n) x1.1 x1.2))
           (Qap.variable_map n).*1;
   mret (terms_list ++ concat tss)).
Proof.
  unfold Qap.pairwise_terms. rewrite <- for_each_extend.
  apply for_each_ext. intros x1 s _. apply for_each_snoc.
Qed.

Lemma pairwise_terms_covered (n : Z) (locations facilities : list (list Z))
    (terms_list : list Qap.entry) :
  covers n locations -> covers n facilities ->
  products_exact n locations facilities ->
  Qap.pairwise_terms (Qap.variable_map n) locations facilities terms_list =
  Qap.Ok (terms_list ++ pair_entries n locations facilities).
Proof.
  intros Hloc Hfac Hexact. rewrite pairwise_terms_comprehension.
  rewrite (comprehension_ok _
             (fun x1 => pair_entry n locations facilities x1
                          <$> Qap.neighbours (Qap.variable_map n) x1.1 x1.2)).
  - simpl. by rewrite concat_fmap_bind.
  - apply Forall_forall. intros x1 Hx1.
    apply comprehension_ok, Forall_forall. intros x2 Hx2.
    by apply pair_term_covered.
Qed.

Lemma elem_of_pair_entries (n : Z) (locations facilities : list (list Z))
    (e : Qap.entry) :
  e ∈ pair_entries n locations facilities <->
  exists i j i2 j2,
    0 <= i < n /\ 0 <= j < n /\ 0 <= i2 < n /\ 0 <= j2 < n /\
    i2 <> i /\ j2 <> j /\
    e = pair_entry n locations facilities (i, j) (i2, j2).
Proof.
  unfold pair_entries. rewrite list_elem_of_bind. split.
  - intros ([i j] & He & Hx1). apply list_elem_of_fmap in He as ([i2 j2] & -> & Hx2).
    apply elem_of_variable_map_keys in Hx1. apply elem_of_neighbours in Hx2.
    exists i, j, i2, j2. simpl in *. intuition.
  - intros (i & j & i2 & j2 & Hi & Hj & Hi2 & Hj2 & Hni & Hnj & ->).
    exists (i, j). split.
    + apply list_elem_of_fmap. exists (i2, j2). split; [done |].
      apply elem_of_neighbours. simpl. lia.
    + apply elem_of_variable_map_keys. lia.
Qed.

(** ** Counting the pairwise terms *)

Lemma filter_all {A : Type} (P : A -> Prop) `{!forall a, Decision (P a)} (l : list A) :
  Forall P l -> filter P l = l.
Proof.
  induction 1 as [|a l Ha _ IH]; [done |].
  by rewrite filter_cons_True, IH.
Qed.

Lemma length_filter_ne (l : list Z) (a : Z) :
  NoDup l -> a ∈ l -> S (length (filter (fun b => b ≠ a) l)) = length l.
Proof.
  induction l as [|b l IH]; intros Hnd Hin.
  - by apply elem_of_nil in Hin.
  - apply NoDup_cons in Hnd as [Hb Hnd].
    destruct (decide (b = a)) as [-> | Hne].
    + rewrite filter_cons_False by (intros Hc; by apply Hc).
      rewrite filter_all; [done |].
      apply Forall_forall. intros c Hc ->. done.
    + rewrite filter_cons_True by done. simpl. f_equal.
      apply IH; [done |]. apply elem_of_cons in Hin as [-> | Hin]; done.
Qed.

Lemma length_others (n i : Z) :
  0 <= i < n -> Z.of_nat (length (others n i)) = n - 1.
Proof.
  intros Hi. unfold others.
  pose proof (length_filter_ne (seqZ 0 n) i (NoDup_seqZ 0 n)) as Hlen.
  rewrite length_seqZ in Hlen.
  specialize (Hlen ltac:(apply elem_of_seqZ; lia)). lia.
Qed.

Lemma filter_row (i j a : Z) (l : list Z) :
  filter (fun v : Z * Z => v.1 ≠ i ∧ v.2 ≠ j) ((fun b => (a, b)) <$> l) =
  if decide (a = i) then [] else (fun b => (a, b)) <$> filter (fun b => b ≠ j) l.
Proof.
  induction l as [|b l IH]; [by destruct (decide (a = i)) |].
  rewrite fmap_cons, !filter_cons, IH. simpl.
  repeat case_decide; try tauto; done.
Qed.

Lemma filter_pairs (i j : Z) (l1 l2 : list Z) :
  filter (fun v : Z * Z => v.1 ≠ i ∧ v.2 ≠ j) (l1 ≫= fun a => (fun b => (a, b)) <$> l2) =
  filter (fun a => a ≠ i) l1 ≫= fun a => (fun b => (a, b)) <$> filter (fun b => b ≠ j) l2.
Proof.
  induction l1 as [|a l1 IH]; [done |].
  rewrite bind_cons, filter_app, IH, filter_cons, filter_row.
  destruct (decide (a = i)).
  - by rewrite decide_False by tauto.
  - by rewrite decide_True, bind_cons by done.
Qed.

(** The neighbours of [(i, j)] are the pairs over the other facilities and
    the other locations. *)
Lemma neighbours_grid (n i j : Z) :
  Qap.neighbours (Qap.variable_map n) i j =
  others n i ≫= fun i2 => (fun j2 => (i2, j2)) <$> others n j.
Proof.
  unfold Qap.neighbours, others. rewrite variable_map_keys.
  apply filter_pairs.
Qed.

Lemma length_bind_const {A B : Type} (f : A -> list B) (l : list A) (k : nat) :
  Forall (fun a => length (f a) = k) l -> length (l ≫= f) = (length l * k)%nat.
Proof.
  induction 1 as [|a l Ha _ IH]; [done |].
  rewrite bind_cons, length_app, Ha, IH. simpl. lia.
Qed.

Lemma length_neighbours (n i j : Z) :
  0 <= i < n -> 0 <= j < n ->
  Z.of_nat (length (Qap.neighbours (Qap.variable_map n) i j)) = (n - 1) * (n - 1).
Proof.
  intros Hi Hj. rewrite neighbours_grid.
  rewrite (length_bind_const _ _ (length (others n j))).
  - rewrite Nat2Z.inj_mul, !length_others by done. done.
  - apply Forall_forall. intros i2 _. by rewrite length_fmap.
Qed.

Lemma length_variable_map (n : Z) :
  0 <= n -> Z.of_nat (length (Qap.variable_map n)) = n * n.
Proof.
  intros Hn.
  rewrite <- (length_fmap snd), variable_map_values, length_seqZ by done. lia.
Qed.

Lemma length_pair_entries (n : Z) (locations facilities : list (list Z)) :
  0 <= n ->
  Z.of_nat (length (pair_entries n locations facilities)) =
  n * n * ((n - 1) * (n - 1)).
Proof.
  intros Hn. unfold pair_entries.
  rewrite (length_bind_const _ _ (Z.to_nat ((n - 1) * (n - 1)))).
  - rewrite Nat2Z.inj_mul, length_fmap, length_variable_map by done.
    rewrite Z2Nat.id by nia. done.
  - apply Forall_forall. intros [i j] Hin.
    apply elem_of_variable_map_keys in Hin.
    rewrite length_fmap. simpl.
    rewrite <- (length_neighbours n i j) by lia. by rewrite Nat2Z.id.
Qed.

Lemma id_div_mod (n i j : Z) :
  0 <= i -> 0 <= j < n -> (i * n + j) / n = i /\ (i * n + j) mod n = j.
Proof.
  intros Hi Hj. split.
  - rewrite Z.div_add_l by lia. rewrite Z.div_small by lia. lia.
  - rewrite Z.add_comm, Z.mod_add by lia. apply Z.mod_small. lia.
Qed.

Lemma pair_entries_shaped (n : Z) (locations facilities : list (list Z)) :
  covers n locations -> covers n facilities ->
  Forall (pair_shaped n locations facilities) (pair_entries n locations facilities).
Proof.
  intros Hloc Hfac. apply Forall_forall. intros e He.
  apply elem_of_pair_entries in He
    as (i & j & i2 & j2 & Hi & Hj & Hi2 & Hj2 & Hni & Hnj & ->).
  destruct (Hloc j j2) as [t Ht]; [lia | lia | lia |].
  destruct (Hfac i i2) as [p Hp]; [lia | lia | lia |].
  exists (i * n + j), (i2 * n + j2), t, p.
  destruct (id_div_mod n i j) as [-> ->]; [lia | lia |].
  destruct (id_div_mod n i2 j2) as [-> ->]; [lia | lia |].
  unfold pair_entry, entry_or_zero; simpl. rewrite Ht, Hp. simpl.
  split_and!; try done; nia.
Qed.

Lemma comprehension_ext {A B : Type} (f g : A -> Qap.res B) (l : list A) :
  (forall a, a ∈ l -> f a = g a) -> Qap.comprehension f l = Qap.comprehension g l.
Proof.
  induction l as [|a l IH]; intros Hfg; simpl; [done |].
  rewrite Hfg by left. rewrite IH; [done |].
  intros a' Ha'. apply Hfg. by right.
Qed.

Lemma comprehension_ok_inv {A B : Type} (f : A -> Qap.res B) (l : list A)
    (bs : list B) (a : A) :
  Qap.comprehension f l = Qap.Ok bs -> a ∈ l -> exists b, f a = Qap.Ok b.
Proof.
  intros Hok Hin. pose proof (comprehension_inv f l) as Hinv.
  rewrite Hok in Hinv. clear Hok.
  induction Hinv as [|a' b l bs Hab _ IH]; [by apply elem_of_nil in Hin |].
  apply elem_of_cons in Hin as [-> | Hin]; eauto.
Qed.

(** A pairwise loop that raises raises [IndexError], for a missing entry,
    or [OverflowError], for a product too large for a float. *)
Lemma pairwise_terms_raise (n : Z) (locations facilities : list (list Z))
    (terms_list : list Qap.entry) (e : Qap.exn) :
  Qap.pairwise_terms (Qap.variable_map n) locations facilities terms_list =
    Qap.Raise e ->
  exists i j i2 j2,
    0 <= i < n /\ 0 <= j < n /\ 0 <= i2 < n /\ 0 <= j2 < n /\ i2 <> i /\ j2 <> j /\
    match entry_at locations j j2, entry_at facilities i i2 with
    | Some t, Some p =>
        e = Qap.OverflowError /\ Qap.true_divide_two (t * p) = Qap.Raise e
    | _, _ => e = Qap.IndexError
    end.
Proof.
  rewrite pairwise_terms_comprehension. intros Hraise.
  match type of Hraise with context [Qap.comprehension ?f ?l] =>
    pose proof (comprehension_inv f l) as Hinv;
    destruct (Qap.comprehension f l) as [tss | e'] end; [done |].
  injection Hraise as ->. destruct Hinv as ([i j] & Hx1 & Hinner).
  match type of Hinner with Qap.comprehension ?f ?l = _ =>
    pose proof (comprehension_inv f l) as Hinv end.
  rewrite Hinner in Hinv. destruct Hinv as ([i2 j2] & Hx2 & Hterm).
  apply elem_of_variable_map_keys in Hx1. apply elem_of_neighbours in Hx2.
  simpl in Hx2. rewrite (pair_term_spec n) in Hterm by lia.
  exists i, j, i2, j2. split_and!; try lia.
  destruct (entry_at locations j j2) as [t |], (entry_at facilities i i2) as [p |];
    try congruence.
  destruct (Qap.true_divide_two (t * p)) as [c | e'] eqn:Hdiv; simpl in Hterm;
    [done |].
  injection Hterm as ->. split; [| done]. by eapply true_divide_two_raise.
Qed.

Lemma pairwise_terms_needs (n : Z) (locations facilities : list (list Z))
    (terms_list new : list Qap.entry) (i j i2 j2 : Z) :
  Qap.pairwise_terms (Qap.variable_map n) locations facilities terms_list =
    Qap.Ok new ->
  0 <= i < n -> 0 <= j < n -> 0 <= i2 < n -> 0 <= j2 < n -> i2 <> i -> j2 <> j ->
  is_Some (entry_at locations j j2) /\ is_Some (entry_at facilities i i2).
Proof.
  rewrite pairwise_terms_comprehension. intros Hok Hi Hj Hi2 Hj2 Hni Hnj.
  match type of Hok with context [Qap.comprehension ?f ?l] =>
    destruct (Qap.comprehension f l) as [tss | e'] eqn:Houter end; [| done].
  destruct (comprehension_ok_inv _ _ _ (i, j) Houter) as [ts Hinner].
  { apply elem_of_variable_map_keys. lia. }
  destruct (comprehension_ok_inv _ _ _ (i2, j2) Hinner) as [t Hterm].
  { apply elem_of_neighbours. simpl. lia. }
  rewrite (pair_term_spec n) in Hterm by lia.
  destruct (entry_at locations j j2), (entry_at facilities i i2); done.
Qed.

(** X3: when both matrices have all their off-diagonal entries and every
    product of a distance and a flow stays below 2^53 in magnitude, where the
    division by [2.0] is exact, the pairwise loop completes and appends
    n^2 (n-1)^2 terms.  Each couples two ids of the map that differ in
    facility and in location, and weighs them by half the product of the
    distance between the two locations and the flow between the two
    facilities. *)
Theorem qap_pairwise_terms_shape (n : Z) (locations facilities : list (list Z))
    (terms_list : list Qap.entry) :
  0 <= n -> covers n locations -> covers n facilities ->
  products_exact n locations facilities ->
  exists new,
    Qap.pairwise_terms (Qap.variable_map n) locations facilities terms_list =
      Qap.Ok (terms_list ++ new) /\
    Z.of_nat (length new) = n * n * ((n - 1) * (n - 1)) /\
    Forall (pair_shaped n locations facilities) new.
Proof.
  intros Hn Hloc Hfac Hexact. exists (pair_entries n locations facilities).
  split_and!.
  - by apply pairwise_terms_covered.
  - by apply length_pair_entries.
  - by apply pair_entries_shaped.
Qed.

(** X4: a matrix lacking an off-diagonal entry within the first [n] rows and
    columns makes the pairwise loop raise, and what it raises is [IndexError]
    when every product of two entries that are there stays below 2^53 in
    magnitude (a product beyond the range of a float, met first, would raise
    [OverflowError] instead). *)
Theorem qap_pairwise_terms_index_error (n : Z)
    (locations facilities : list (list Z)) (terms_list : list Qap.entry)
    (r c : Z) :
  0 <= r < n -> 0 <= c < n -> r <> c ->
  entry_at locations r c = None \/ entry_at facilities r c = None ->
  products_exact n locations facilities ->
  Qap.pairwise_terms (Qap.variable_map n) locations facilities terms_list =
  Qap.Raise Qap.IndexError.
Proof.
  intros Hr Hc Hne Hmiss Hexact.
  destruct (Qap.pairwise_terms (Qap.variable_map n) locations facilities terms_list)
    as [new | e] eqn:Hrun.
  - destruct Hmiss as [Hmiss | Hmiss].
    + destruct (pairwise_terms_needs _ _ _ _ _ c r r c Hrun) as [[t Ht] _];
        try lia. congruence.
    + destruct (pairwise_terms_needs _ _ _ _ _ r c c r Hrun) as [_ [p Hp]];
        try lia. congruence.
  - f_equal.
    destruct (pairwise_terms_raise _ _ _ _ _ Hrun)
      as (i & j & i2 & j2 & Hi & Hj & Hi2 & Hj2 & Hni & Hnj & Hwhy).
    destruct (entry_at locations j j2) as [t |] eqn:Ht;
      destruct (entry_at facilities i i2) as [p |] eqn:Hp; try done.
    destruct Hwhy as [_ Hdiv].
    rewrite true_divide_two_exact in Hdiv; [done |].
    by apply (Hexact i j i2 j2).
Qed.

(** X5: the diagonals of the two matrices are never read: matrices that agree
    off the diagonal give the same result, be it a list or an exception. *)
Theorem qap_pairwise_terms_ignore_diagonal (n : Z)
    (locations locations' facilities facilities' : list (list Z))
    (terms_list : list Qap.entry) :
  agree_off_diagonal n locations locations' ->
  agree_off_diagonal n facilities facilities' ->
  Qap.pairwise_terms (Qap.variable_map n) locations facilities terms_list =
  Qap.pairwise_terms (Qap.variable_map n) locations' facilities' terms_list.
Proof.
  intros Hloc Hfac. rewrite !pairwise_terms_comprehension.
  f_equal. apply comprehension_ext. intros [i j] Hx1.
  apply comprehension_ext. intros [i2 j2] Hx2.
  apply elem_of_variable_map_keys in Hx1. apply elem_of_neighbours in Hx2.
  simpl in Hx2. rewrite !(pair_term_spec n) by lia.
  rewrite (Hloc j j2), (Hfac i i2) by lia. done.
Qed.

Lemma id_inj (n i j i' j' : Z) :
  0 <= i -> 0 <= j < n -> 0 <= i' -> 0 <= j' < n ->
  i * n + j = i' * n + j' -> i = i' /\ j = j'.
Proof.
  intros Hi Hj Hi' Hj' Heq.
  destruct (id_div_mod n i j) as [Hd Hm]; [lia | lia |].
  destruct (id_div_mod n i' j') as [Hd' Hm']; [lia | lia |].
  rewrite Heq in Hd, Hm. lia.
Qed.

Lemma NoDup_pair_ids (n : Z) (locations facilities : list (list Z)) :
  NoDup (entry_ids <$> pair_entries n locations facilities).
Proof.
  unfold pair_entries. rewrite fmap_bind_list. apply NoDup_bind.
  - intros [i j] [i' j'] ids Hx Hx' Hin Hin'.
    apply elem_of_variable_map_keys in Hx, Hx'.
    rewrite <- list_fmap_compose in Hin, Hin'.
    apply list_elem_of_fmap in Hin as ([i2 j2] & -> & _).
    apply list_elem_of_fmap in Hin' as ([i2' j2'] & Heq & _).
    simpl in Heq. injection Heq as Heq _.
    destruct (id_inj n i j i' j') as [-> ->]; (lia || done).
  - intros [i j] Hx. rewrite <- list_fmap_compose.
    apply NoDup_fmap_2_strong.
    + intros [i2 j2] [i2' j2'] Hin Hin' Heq.
      apply elem_of_neighbours in Hin, Hin'. simpl in *.
      injection Heq as Heq.
      destruct (id_inj n i2 j2 i2' j2') as [-> ->]; (lia || done).
    + unfold Qap.neighbours. apply NoDup_filter, NoDup_variable_map_keys.
  - apply NoDup_variable_map_keys.
Qed.

(** X6: common terms are not condensed: with symmetric matrices whose
    off-diagonal entries are all there and whose products stay below 2^53 in
    magnitude, the loop completes, every pairwise term [c, [a, b]] comes with
    its mirror [c, [b, a]], and no ordered pair of ids is produced twice. *)
Theorem qap_pairwise_terms_mirrored (n : Z) (locations facilities : list (list Z))
    (terms_list : list Qap.entry) :
  covers n locations -> covers n facilities ->
  products_exact n locations facilities ->
  symmetric n locations -> symmetric n facilities ->
  exists new,
    Qap.pairwise_terms (Qap.variable_map n) locations facilities terms_list =
      Qap.Ok (terms_list ++ new) /\
    NoDup (entry_ids <$> new) /\
    forall c a b, Qap.Term c [a; b] ∈ new -> Qap.Term c [b; a] ∈ new.
Proof.
  intros Hloc Hfac Hexact Hsl Hsf. exists (pair_entries n locations facilities).
  split_and!.
  - by apply pairwise_terms_covered.
  - apply NoDup_pair_ids.
  - intros c a b Hin.
    apply elem_of_pair_entries in Hin
      as (i & j & i2 & j2 & Hi & Hj & Hi2 & Hj2 & Hni & Hnj & Heq).
    apply elem_of_pair_entries. exists i2, j2, i, j.
    split_and!; try done; try lia.
    unfold pair_entry, entry_or_zero in *; simpl in *.
    injection Heq as -> -> ->.
    by rewrite (Hsl j2 j), (Hsf i2 i) by lia.
Qed.

(** ** Grouped terms *)

Lemma slc_term_ok (n P k : Z) (var : Z -> Z -> Z * Z) (id : Z -> Z -> Z) (i : Z) :
  (forall j, 0 <= j < n ->
     Qap.dict_getitem (Qap.variable_map n) (var i j) = Qap.Ok (id i j)) ->
  Qap.slc_term (Qap.variable_map n) n P k var i =
  Qap.Ok (group P k (id i <$> seqZ 0 n)).
Proof.
  intros Hvar. unfold Qap.slc_term.
  rewrite (comprehension_ok _ (fun j => Term.Term 1 [id i j])).
  - simpl. unfold group. by rewrite <- list_fmap_compose.
  - apply Forall_seqZ. intros j Hj. by rewrite Hvar by lia.
Qed.

Lemma constraints_ok (n P k : Z) (var : Z -> Z -> Z * Z) (id : Z -> Z -> Z)
    (terms_list : list Qap.entry) :
  (forall i j, 0 <= i < n -> 0 <= j < n ->
     Qap.dict_getitem (Qap.variable_map n) (var i j) = Qap.Ok (id i j)) ->
  Qap.constraints (Qap.variable_map n) n P k var terms_list =
  Qap.Ok (terms_list ++ ((fun i => group P k (id i <$> seqZ 0 n)) <$> seqZ 0 n)).
Proof.
  intros Hvar. unfold Qap.constraints. rewrite for_each_snoc.
  rewrite (comprehension_ok _ (fun i => group P k (id i <$> seqZ 0 n))); [done |].
  apply Forall_seqZ. intros i Hi. apply slc_term_ok. intros j Hj.
  apply Hvar; lia.
Qed.

Lemma constraints_rows (n P k : Z) (terms_list : list Qap.entry) :
  Qap.constraints (Qap.variable_map n) n P k (fun i j => (i, j)) terms_list =
  Qap.Ok (terms_list ++ ((fun i => group P k (row_ids n i)) <$> seqZ 0 n)).
Proof.
  apply (constraints_ok n P k _ (fun i j => i * n + j)).
  intros i j Hi Hj. by rewrite variable_map_hit by lia.
Qed.

Lemma constraints_cols (n P k : Z) (terms_list : list Qap.entry) :
  Qap.constraints (Qap.variable_map n) n P k (fun i j => (j, i)) terms_list =
  Qap.Ok (terms_list ++ ((fun i => group P k (col_ids n i)) <$> seqZ 0 n)).
Proof.
  apply (constraints_ok n P k _ (fun i j => j * n + i)).
  intros i j Hi Hj. by rewrite variable_map_hit by lia.
Qed.

(** X7: the two constraint loops never raise.  The first appends, for each
    facility [i] in order, the grouped term over the ids of row [i]; the
    second, for each location [i], the grouped term over the ids of column
    [i]; each group carries the constant [k] last and the weight [P]. *)
Theorem qap_constraints_groups (n P k : Z) (terms_list : list Qap.entry) :
  Qap.constraints (Qap.variable_map n) n P k (fun i j => (i, j)) terms_list =
    Qap.Ok (terms_list ++ ((fun i => group P k (row_ids n i)) <$> seqZ 0 n)) /\
  Qap.constraints (Qap.variable_map n) n P k (fun i j => (j, i)) terms_list =
    Qap.Ok (terms_list ++ ((fun i => group P k (col_ids n i)) <$> seqZ 0 n)).
Proof.
  split; [apply constraints_rows | apply constraints_cols].
Qed.

Lemma cost_units (x : assignment) (k : Z) (ids : list Z) :
  binary_on ids x ->
  cost x (((fun a => Term.Term 1 [a]) <$> ids) ++ [Term.Term k []]) =
  set_among x ids + k.
Proof.
  intros Hbin. rewrite cost_app.
  replace (cost x [Term.Term k []]) with k
    by (unfold cost, term_value, product; simpl; lia).
  f_equal. unfold set_among. induction Hbin as [|a ids Ha _ IH]; [done |].
  rewrite fmap_cons, filter_cons.
  change (cost x (?t :: ?l)) with (term_value x t + cost x l).
  rewrite IH. unfold term_value, product; simpl.
  destruct (decide (x a = 1)) as [-> | Hne]; simpl length; lia.
Qed.

Lemma group_value (x : assignment) (P : Z) (ids : list Z) :
  binary_on ids x ->
  Qap.entry_value x (group P (-1) ids) =
  inject_Z (P * (set_among x ids - 1) ^ 2).
Proof.
  intros Hbin. unfold group; simpl. rewrite cost_units by done.
  by replace (set_among x ids + -1) with (set_among x ids - 1) by lia.
Qed.

(** X8: on 0/1 values the grouped term the facility loop builds for
    facility [i], with constant -1 and a positive weight [P], is worth
    [P * (s - 1)^2], where [s] counts the variables of row [i] that are set:
    nothing when exactly one is set, at least [P] otherwise.  The same holds
    for the term the location loop builds for column [i]. *)
Theorem qap_group_penalty (x : assignment) (n P i : Z) :
  0 <= i < n -> 0 < P ->
  binary_on (row_ids n i) x -> binary_on (col_ids n i) x ->
  (exists e v,
     Qap.slc_term (Qap.variable_map n) n P (-1) (fun i j => (i, j)) i = Qap.Ok e /\
     Qap.entry_value x e = inject_Z v /\
     v = P * (set_among x (row_ids n i) - 1) ^ 2 /\
     (set_among x (row_ids n i) = 1 -> v = 0) /\
     (set_among x (row_ids n i) <> 1 -> P <= v)) /\
  (exists e v,
     Qap.slc_term (Qap.variable_map n) n P (-1) (fun i j => (j, i)) i = Qap.Ok e /\
     Qap.entry_value x e = inject_Z v /\
     v = P * (set_among x (col_ids n i) - 1) ^ 2 /\
     (set_among x (col_ids n i) = 1 -> v = 0) /\
     (set_among x (col_ids n i) <> 1 -> P <= v)).
Proof.
  intros Hi HP Hrow Hcol. split.
  - exists (group P (-1) (row_ids n i)), (P * (set_among x (row_ids n i) - 1) ^ 2).
    split_and!.
    + apply (slc_term_ok n P (-1) _ (fun i j => i * n + j)).
      intros j Hj. by rewrite variable_map_hit by lia.
    + by apply group_value.
    + done.
    + intros ->. lia.
    + intros Hne. nia.
  - exists (group P (-1) (col_ids n i)), (P * (set_among x (col_ids n i) - 1) ^ 2).
    split_and!.
    + apply (slc_term_ok n P (-1) _ (fun i j => j * n + i)).
      intros j Hj. by rewrite variable_map_hit by lia.
    + by apply group_value.
    + done.
    + intros ->. lia.
    + intros Hne. nia.
Qed.

Lemma Forall_pair_entries_monomial (n : Z) (locations facilities : list (list Z)) :
  Forall is_monomial (pair_entries n locations facilities).
Proof.
  apply Forall_forall. intros e He.
  apply elem_of_pair_entries in He as (i & j & i2 & j2 & _ & _ & _ & _ & _ & _ & ->).
  done.
Qed.

(** X9: for matrices with all off-diagonal entries, whose products stay
    below 2^53 in magnitude, the three cells together produce n^2 (n-1)^2
    monomial terms followed by 2n grouped terms. *)
Theorem qap_build_counts (n P k : Z) (locations facilities : list (list Z)) :
  0 <= n -> covers n locations -> covers n facilities ->
  products_exact n locations facilities ->
  exists monomials grouped,
    Qap.build n locations facilities P k = Qap.Ok (monomials ++ grouped) /\
    Forall is_monomial monomials /\
    Z.of_nat (length monomials) = n * n * ((n - 1) * (n - 1)) /\
    Forall is_grouped grouped /\
    Z.of_nat (length grouped) = 2 * n.
Proof.
  intros Hn Hloc Hfac Hexact.
  exists (pair_entries n locations facilities),
    (((fun i => group P k (row_ids n i)) <$> seqZ 0 n) ++
     ((fun i => group P k (col_ids n i)) <$> seqZ 0 n)).
  split_and!.
  - unfold Qap.build. rewrite pairwise_terms_covered by done. simpl.
    rewrite constraints_rows. simpl. rewrite constraints_cols.
    by rewrite <- app_assoc.
  - apply Forall_pair_entries_monomial.
  - by apply length_pair_entries.
  - apply Forall_app. split; apply Forall_fmap, Forall_forall; done.
  - rewrite length_app, !length_fmap, length_seqZ. lia.
Qed.

(** ** Exhaustive search over 0/1 assignments *)

Lemma elem_of_binary_lists (values : list Z) :
  Forall (fun v => v = 0 \/ v = 1) values ->
  values ∈ binary_lists (length values).
Proof.
  induction 1 as [|v values Hv _ IH]; simpl.
  - apply list_elem_of_singleton. done.
  - apply list_elem_of_bind. exists values. split; [| done].
    destruct Hv as [-> | ->]; set_solver.
Qed.

Lemma of_values_fmap (x : assignment) (len a : Z) :
  0 <= a < len -> of_values (x <$> seqZ 0 len) a = x a.
Proof.
  intros Ha. unfold of_values.
  rewrite list_lookup_fmap, lookup_seqZ_lt by lia. simpl. f_equal. lia.
Qed.

Lemma product_agree (x y : assignment) (ids : list Z) :
  Forall (fun a => x a = y a) ids -> product x ids = product y ids.
Proof. induction 1 as [|a ids Ha _ IH]; simpl; [done |]. by rewrite Ha, IH. Qed.

Lemma cost_agree (x y : assignment) (ts : list Term.t) :
  Forall (fun a => x a = y a) (concat (Term.indices <$> ts)) ->
  cost x ts = cost y ts.
Proof.
  induction ts as [|t ts IH]; simpl; [done |].
  rewrite Forall_app. intros [Ht Hts].
  unfold term_value. by rewrite (product_agree x y), IH.
Qed.

Lemma objective_agree (x y : assignment) (bound : Z) (l : list Qap.entry) :
  Forall (fun e => within e bound) l ->
  (forall a, 0 <= a < bound -> x a = y a) ->
  Qap.objective x l = Qap.objective y l.
Proof.
  intros Hl Hxy. induction Hl as [|e l He _ IH]; simpl; [done |].
  rewrite IH. f_equal.
  assert (Forall (fun a => x a = y a) (entry_ids e)) as Hids.
  { eapply Forall_impl; [exact He |]. intros a Ha. by apply Hxy. }
  destruct e as [c ids | c ts]; simpl in *.
  - by rewrite (product_agree x y).
  - by rewrite (cost_agree x y).
Qed.

(** X10: on the notebook's matrices, with penalty 1000, no 0/1 assignment of
    the nine variables brings the objective below 270, and the only one that
    reaches 270 is the recorded answer: ids 0, 4 and 8 set, every facility on
    the location of the same number. *)
Theorem qap_recorded_answer_optimal (x : assignment) :
  binary_on (seqZ 0 9) x ->
  exists l,
    Qap.terms_list = Qap.Ok l /\
    (inject_Z 270 <= Qap.objective x l)%Q /\
    ((Qap.objective x l == inject_Z 270)%Q <-> x <$> seqZ 0 9 = recorded_values).
Proof.
  intros Hbin.
  destruct Qap.terms_list as [l |] eqn:Hl; [| by vm_compute in Hl].
  exists l. split; [done |].
  assert (Hwithin : Forall (fun e => within e 9) l).
  { vm_compute in Hl. injection Hl as <-.
    repeat (apply Forall_cons; split;
            [unfold within; simpl; repeat (apply Forall_cons; split; [lia |]);
             apply Forall_nil_2 |]).
    apply Forall_nil_2. }
  rewrite (objective_agree x (of_values (x <$> seqZ 0 9)) 9 l Hwithin)
    by (intros a Ha; by rewrite of_values_fmap).
  assert (Hall : forallb (optimum_check l) (binary_lists 9) = true).
  { vm_compute in Hl. injection Hl as <-. vm_compute. reflexivity. }
  rewrite forallb_forall in Hall.
  assert (Hin : x <$> seqZ 0 9 ∈ binary_lists 9).
  { change 9%nat with (Z.to_nat 9). rewrite <- (length_seqZ 0 9).
    rewrite <- (length_fmap x). apply elem_of_binary_lists.
    by apply Forall_fmap. }
  apply list_elem_of_In, Hall in Hin. unfold optimum_check in Hin.
  apply andb_prop in Hin as [Hle Heq]. apply Qle_bool_iff in Hle.
  split; [done |]. split.
  - intros Hv. apply Qeq_bool_iff in Hv. rewrite Hv in Heq.
    by apply bool_decide_eq_true in Heq.
  - intros ->. vm_compute in Hl. injection Hl as <-. vm_compute. reflexivity.
Qed.

(** ** Reading the solution back *)

Lemma for_variables_spec (n : Z) (vars : list (Z * Z)) (cfg : configuration) :
  Forall (fun v => v ∈ (Qap.variable_map n).*1) vars ->
  exists (lines : list string) (o : Qap.res ()),
    (forall out,
       Qap.for_variables vars (Qap.variable_map n) (World cfg out) =
       (World cfg (out ++ lines), o)) /\
    match o with
    | Qap.Ok _ =>
        Forall (present n cfg) vars /\
        lines = Qap.sentence <$> filter (chosen n cfg) vars
    | Qap.Raise e =>
        exists pre v post,
          vars = pre ++ v :: post /\
          e = Qap.KeyError (Qap.KStr (key_of n v)) /\
          getitem cfg (key_of n v) = None /\
          Forall (present n cfg) pre /\
          lines = Qap.sentence <$> filter (chosen n cfg) pre
    end.
Proof.
  induction 1 as [|[i j] vars Hv _ (lines & o & Hrun & Hout)].
  - exists [], (Qap.Ok ()). split; [| done].
    intros out; simpl. by rewrite app_nil_r.
  - apply elem_of_variable_map_keys in Hv.
    simpl. rewrite variable_map_hit by lia.
    destruct (getitem cfg (pretty (i * n + j))) as [val |] eqn:Hget.
    + assert (Hpres : present n cfg (i, j)) by (unfold present, key_of; simpl; by rewrite Hget).
      destruct (Z.eqb_spec val 1) as [-> | Hne].
      * exists (Qap.sentence (i, j) :: lines), o. split.
        { intros out. unfold print; simpl. rewrite Hrun. by rewrite <- app_assoc. }
        assert (Hch : chosen n cfg (i, j)) by done.
        destruct o as [[] | e].
        { destruct Hout as [Hall ->]. split; [by constructor |].
          by rewrite filter_cons_True. }
        destruct Hout as (pre & v & post & -> & -> & Hmiss & Hpre & ->).
        exists ((i, j) :: pre), v, post.
        split_and!; [done | done | done | by constructor |].
        by rewrite filter_cons_True.
      * exists lines, o. split; [done |].
        assert (Hch : ~ chosen n cfg (i, j)).
        { unfold chosen, key_of; simpl. rewrite Hget. congruence. }
        destruct o as [[] | e].
        { destruct Hout as [Hall ->]. split; [by constructor |].
          by rewrite filter_cons_False. }
        destruct Hout as (pre & v & post & -> & -> & Hmiss & Hpre & ->).
        exists ((i, j) :: pre), v, post.
        split_and!; [done | done | done | by constructor |].
        by rewrite filter_cons_False.
    + exists [], (Qap.Raise (Qap.KeyError (Qap.KStr (pretty (i * n + j))))). split.
      { intros out. by rewrite app_nil_r. }
      exists [], (i, j), vars. split_and!; done.
Qed.

Lemma report_spec (n : Z) (w : world) :
  exists (lines : list string) (o : Qap.res ()),
    Qap.report n w = (World (config w) (stdout w ++ lines), o) /\
    match o with
    | Qap.Ok _ =>
        Forall (present n (config w)) (Qap.variable_map n).*1 /\
        lines = Qap.sentence <$> filter (chosen n (config w)) (Qap.variable_map n).*1
    | Qap.Raise e =>
        exists pre v post,
          (Qap.variable_map n).*1 = pre ++ v :: post /\
          e = Qap.KeyError (Qap.KStr (key_of n v)) /\
          getitem (config w) (key_of n v) = None /\
          Forall (present n (config w)) pre /\
          lines = Qap.sentence <$> filter (chosen n (config w)) pre
    end.
Proof.
  destruct (for_variables_spec n (Qap.variable_map n).*1 (config w))
    as (lines & o & Hrun & Hout); [by apply Forall_forall |].
  exists lines, o. split; [| done].
  unfold Qap.report. destruct w as [cfg out]. apply Hrun.
Qed.

Lemma present_ids (n : Z) (cfg : configuration) :
  (forall id, 0 <= id < n * n -> is_Some (getitem cfg (pretty id))) ->
  Forall (present n cfg) (Qap.variable_map n).*1.
Proof.
  intros Hall. apply Forall_forall. intros [i j] Hv.
  apply elem_of_variable_map_keys in Hv. apply Hall. simpl. nia.
Qed.

(** X11: when the configuration has an entry under the decimal string of
    every id below n*n, the last cell returns, changes nothing, and prints
    one sentence for each pair whose variable holds 1, in the order of the
    map (by facility, then by location), whatever the order and the other
    keys of the configuration. *)
Theorem qap_report_prints_chosen (n : Z) (w : world) :
  (forall id, 0 <= id < n * n -> is_Some (getitem (config w) (pretty id))) ->
  Qap.report n w =
  (World (config w)
     (stdout w ++
      (Qap.sentence <$> filter (chosen n (config w)) (Qap.variable_map n).*1)),
   Qap.Ok ()).
Proof.
  intros Hall. destruct (report_spec n w) as (lines & [[] | e] & Hrun & Hout);
    rewrite Hrun.
  - by destruct Hout as [_ ->].
  - destruct Hout as (pre & [i j] & post & Hkeys & _ & Hmiss & _).
    apply present_ids in Hall. rewrite Hkeys in Hall.
    apply Forall_app in Hall as [_ Hall]. apply Forall_cons in Hall as [Hv _].
    unfold present in Hv. rewrite Hmiss in Hv. by destruct Hv.
Qed.

(** X12: the last cell raises [KeyError] exactly when the configuration lacks
    the decimal string of some id below n*n, whatever the values of the
    others; the key reported is that of the first pair of the map without an
    entry, and the sentences of the chosen pairs before it are already
    printed. *)
Theorem qap_report_key_error (n : Z) (w : world) :
  0 <= n ->
  ((exists e, (Qap.report n w).2 = Qap.Raise e) <->
   (exists id, 0 <= id < n * n /\ getitem (config w) (pretty id) = None)) /\
  (forall e, (Qap.report n w).2 = Qap.Raise e ->
     exists pre v post,
       (Qap.variable_map n).*1 = pre ++ v :: post /\
       e = Qap.KeyError (Qap.KStr (key_of n v)) /\
       getitem (config w) (key_of n v) = None /\
       Forall (present n (config w)) pre /\
       (Qap.report n w).1 =
         World (config w)
           (stdout w ++ (Qap.sentence <$> filter (chosen n (config w)) pre))).
Proof.
  intros Hn. destruct (report_spec n w) as (lines & o & Hrun & Hout).
  rewrite Hrun; simpl. split.
  - split.
    + intros [e ->]. destruct Hout as (pre & [i j] & post & Hkeys & _ & Hmiss & _).
      assert (Hv : (i, j) ∈ (Qap.variable_map n).*1) by (rewrite Hkeys; set_solver).
      apply elem_of_variable_map_keys in Hv.
      exists (i * n + j). split; [| done].
      destruct Hv as [Hi Hj].
      assert (i * n <= (n - 1) * n) by (apply Z.mul_le_mono_nonneg_r; lia).
      assert (0 <= i * n) by (apply Z.mul_nonneg_nonneg; lia). lia.
    + intros (id & Hid & Hmiss). destruct o as [[] | e]; [| by eexists].
      destruct Hout as [Hall _]. rewrite Forall_forall in Hall.
      assert (0 < n) by nia.
      specialize (Hall (id / n, id mod n)). unfold present, key_of in Hall.
      simpl in Hall.
      pose proof (Z.mod_pos_bound id n). pose proof (Z.div_mod id n).
      replace (id / n * n + id mod n) with id in Hall by lia.
      rewrite Hmiss in Hall. destruct Hall as [? ?]; [| done].
      apply elem_of_variable_map_keys. split; [| lia].
      split; [apply Z.div_pos; lia | apply Z.div_lt_upper_bound; lia].
  - intros e ->. destruct Hout as (pre & v & post & Hkeys & -> & Hmiss & Hpre & ->).
    by exists pre, v, post.
Qed.

Lemma filter_none {A : Type} (P : A -> Prop) `{!forall a, Decision (P a)} (l : list A) :
  Forall (fun a => ~ P a) l -> filter P l = [].
Proof.
  induction 1 as [|a l Ha _ IH]; [done |].
  by rewrite filter_cons_False.
Qed.

Lemma filter_bind_list {A B : Type} (P : B -> Prop) `{!forall b, Decision (P b)}
    (f : A -> list B) (l : list A) :
  filter P (l ≫= f) = l ≫= fun a => filter P (f a).
Proof.
  induction l as [|a l IH]; [done |].
  by rewrite !bind_cons, filter_app, IH.
Qed.

Lemma filter_row_single (P : Z * Z -> Prop) `{!forall v, Decision (P v)}
    (i a : Z) (js : list Z) :
  NoDup js -> a ∈ js -> (forall j, j ∈ js -> P (i, j) <-> j = a) ->
  filter P ((fun j => (i, j)) <$> js) = [(i, a)].
Proof.
  induction js as [|j js IH]; intros Hnd Hin HP.
  - by apply elem_of_nil in Hin.
  - apply NoDup_cons in Hnd as [Hj Hnd]. rewrite fmap_cons.
    destruct (decide (j = a)) as [-> | Hne].
    + rewrite filter_cons_True by (apply HP; [left | done]).
      rewrite filter_none; [done |].
      apply Forall_fmap, Forall_forall. intros j Hj' HPj. simpl in HPj.
      apply HP in HPj; [| by right]. by subst.
    + rewrite filter_cons_False.
      * apply IH; [done | |].
        -- apply elem_of_cons in Hin as [-> | Hin]; done.
        -- intros j' Hj'. apply HP. by right.
      * intros HPj. apply HP in HPj; [done | left].
Qed.

Lemma bind_singleton_fmap {A B : Type} (g : A -> B) (l : list A) :
  (l ≫= fun a => [g a]) = g <$> l.
Proof. induction l as [|a l IH]; [done |]. by rewrite bind_cons, IH. Qed.

(** X13: a configuration that sets, for every facility, the variable of
    exactly one location makes the last cell print one sentence per facility,
    in facility order, each naming that location. *)
Theorem qap_report_assignment (n : Z) (w : world) (location_of : Z -> Z) :
  (forall i, 0 <= i < n -> 0 <= location_of i < n) ->
  (forall i j, 0 <= i < n -> 0 <= j < n ->
     exists val, getitem (config w) (pretty (i * n + j)) = Some val /\
                 (val = 1 <-> j = location_of i)) ->
  Qap.report n w =
  (World (config w)
     (stdout w ++ ((fun i => Qap.sentence (i, location_of i)) <$> seqZ 0 n)),
   Qap.Ok ()).
Proof.
  intros Hloc Hcfg. destruct (report_spec n w) as (lines & [[] | e] & Hrun & Hout);
    rewrite Hrun.
  - destruct Hout as [_ ->]. do 3 f_equal.
    rewrite variable_map_keys, filter_bind_list.
    rewrite (Forall_bind_ext _ (fun i => [(i, location_of i)])).
    + rewrite bind_singleton_fmap. by rewrite <- list_fmap_compose.
    + apply Forall_seqZ. intros i Hi.
      apply filter_row_single; [apply NoDup_seqZ | apply elem_of_seqZ | ].
      * pose proof (Hloc i Hi). lia.
      * intros j Hj. apply elem_of_seqZ in Hj.
        destruct (Hcfg i j) as (val & Hget & Hval); [lia | lia |].
        unfold chosen, key_of; simpl. rewrite Hget, <- Hval.
        split; congruence.
  - destruct Hout as (pre & [i j] & post & Hkeys & _ & Hmiss & _).
    assert (Hv : (i, j) ∈ (Qap.variable_map n).*1).
    { rewrite Hkeys, elem_of_app, elem_of_cons. auto. }
    apply elem_of_variable_map_keys in Hv.
    destruct (Hcfg i j) as (val & Hget & _); [lia | lia |].
    unfold key_of in Hmiss; simpl in Hmiss. congruence.
Qed.

(** ** The Secret Santa objective and its minimisers *)

Lemma binary_values (x : assignment) :
  binary_on [0; 1; 2; 3; 4; 5] x ->
  x <$> seqZ 0 6 ∈ binary_lists 6.
Proof.
  intros Hbin.
  replace 6%nat with (length (x <$> seqZ 0 6))
    by (by rewrite length_fmap, length_seqZ).
  apply elem_of_binary_lists. by apply Forall_fmap.
Qed.

Lemma cost_terms_values (x : assignment) :
  cost x terms = cost (of_values (x <$> seqZ 0 6)) terms.
Proof.
  apply cost_agree. vm_compute concat.
  repeat (apply Forall_cons; split; [by rewrite (of_values_fmap x 6) by lia |]).
  apply Forall_nil_2.
Qed.

(** X14: on 0/1 values the objective counts the violated pairs, so it lies
    between 0 and 6. *)
Theorem terms_cost_counts_violations (x : assignment) :
  binary_on [0; 1; 2; 3; 4; 5] x ->
  cost x terms =
    Z.of_nat (length (filter (fun p => exactly_one x p = false) constraint_pairs)) /\
  0 <= cost x terms <= 6.
Proof.
  intros Hbin. rewrite cost_terms.
  unfold binary_on in Hbin. rewrite !Forall_cons in Hbin.
  destruct Hbin as (H0 & H1 & H2 & H3 & H4 & H5 & _).
  rewrite !square_of_pair by assumption.
  unfold constraint_pairs, exactly_one. rewrite !filter_cons, filter_nil. simpl.
  destruct (xorb (x 0 =? 1) (x 1 =? 1)), (xorb (x 2 =? 1) (x 3 =? 1)),
    (xorb (x 4 =? 1) (x 5 =? 1)), (xorb (x 2 =? 1) (x 4 =? 1)),
    (xorb (x 0 =? 1) (x 5 =? 1)), (xorb (x 1 =? 1) (x 3 =? 1));
    simpl; lia.
Qed.

(** X15: among the 0/1 assignments of x0..x5 exactly two bring the objective
    to 0: Vincent to Tess to Uma to Vincent, and the same cycle reversed. *)
Theorem terms_minimisers (x : assignment) :
  binary_on [0; 1; 2; 3; 4; 5] x ->
  cost x terms = 0 <->
  x <$> seqZ 0 6 = cycle_tess \/ x <$> seqZ 0 6 = cycle_uma.
Proof.
  intros Hbin. rewrite cost_terms_values.
  assert (Hall : forallb minimiser_check (binary_lists 6) = true)
    by (vm_compute; reflexivity).
  rewrite forallb_forall in Hall.
  apply binary_values, list_elem_of_In, Hall in Hbin.
  by apply bool_decide_eq_true in Hbin.
Qed.

Lemma for_items_app (a b : configuration) (w : world) :
  for_items (a ++ b) w =
  match for_items a w with
  | (w1, Returned) => for_items b w1
  | (w1, KeyError key) => (w1, KeyError key)
  end.
Proof.
  revert w. induction a as [|[key val] a IH]; intros w; simpl; [done |].
  destruct (val =? 1); [| apply IH].
  destruct (result !! key); [apply IH | done].
Qed.

(** X16: entries are handled strictly in order: on a configuration made of
    two parts, if the first part alone returns, the run goes on with the
    second part from the output reached; if the first part alone raises, the
    whole run raises the same error with the same output, whatever the
    second part holds. *)
Theorem print_results_app (c1 c2 : configuration) (out : list string) :
  exists lines o,
    print_results (World c1 out) = (World c1 (out ++ lines), o) /\
    match o with
    | Returned =>
        exists lines2 o2,
          print_results (World c2 (out ++ lines)) =
            (World c2 ((out ++ lines) ++ lines2), o2) /\
          print_results (World (c1 ++ c2) out) =
            (World (c1 ++ c2) ((out ++ lines) ++ lines2), o2)
    | KeyError key =>
        print_results (World (c1 ++ c2) out) =
          (World (c1 ++ c2) (out ++ lines), KeyError key)
    end.
Proof.
  unfold print_results; simpl.
  destruct (for_items_spec c1) as (lines & o & Hrun1 & _).
  destruct (for_items_spec c2) as (lines2 & o2 & Hrun2 & _).
  exists lines, o. split; [by rewrite Hrun1 |].
  destruct o as [|key].
  - exists lines2, o2. split; [by rewrite Hrun2 |].
    rewrite for_items_app, Hrun1; simpl. by rewrite Hrun2.
  - rewrite for_items_app, Hrun1. done.
Qed.

Lemma print_results_frame (cfg : configuration) (out : list string) :
  print_results (World cfg out) =
  (World cfg (out ++ stdout (print_results (World cfg [])).1),
   (print_results (World cfg [])).2).
Proof.
  unfold print_results; simpl.
  destruct (for_items_spec cfg) as (lines & o & Hrun & _).
  by rewrite !Hrun.
Qed.

Lemma minimiser_check_all : forallb minimiser_check (binary_lists 6) = true.
Proof. vm_compute. reflexivity. Qed.

Lemma config_of_values (x : assignment) (values : list Z) :
  x <$> seqZ 0 6 = values ->
  config_of x = zip (pretty <$> seqZ 0 6) values.
Proof.
  intros <-. unfold config_of.
  induction (seqZ 0 6) as [|k ks IH]; [done |].
  by rewrite !fmap_cons, IH.
Qed.

(** X17: end to end: the configuration of any 0/1 assignment of cost 0 makes
    [print_results] return after printing exactly three sentences, those of
    one of the two gift cycles. *)
Theorem zero_cost_prints_cycle (x : assignment) (out : list string) :
  binary_on [0; 1; 2; 3; 4; 5] x ->
  cost x terms = 0 ->
  print_results (World (config_of x) out) =
    (World (config_of x)
       (out ++ ["Vincent buys Tess a gift and writes her a poem.";
                "Tess buys Uma a gift and writes her a poem.";
                "Uma buys Vincent a gift and writes him a poem."]%string),
     Returned) \/
  print_results (World (config_of x) out) =
    (World (config_of x)
       (out ++ ["Vincent buys Uma a gift and writes her a poem.";
                "Tess buys Vincent a gift and writes him a poem.";
                "Uma buys Tess a gift and writes her a poem."]%string),
     Returned).
Proof.
  intros Hbin Hzero. rewrite cost_terms_values in Hzero.
  pose proof minimiser_check_all as Hall. rewrite forallb_forall in Hall.
  apply binary_values, list_elem_of_In, Hall in Hbin.
  apply bool_decide_eq_true in Hbin. apply Hbin in Hzero.
  rewrite print_results_frame.
  destruct Hzero as [Hv | Hv]; rewrite (config_of_values x _ Hv);
    [left | right]; vm_compute; reflexivity.
Qed.

(** ** Concrete runs *)

Ltac below_three H :=
  match type of H with
  | 0 <= ?i < 3 =>
      let C := fresh in
      assert (i = 0 \/ i = 1 \/ i = 2) as C by lia;
      destruct C as [-> | [-> | ->]]
  end.

(** Deciding a property of all pairs of indices below [n]. *)
Lemma range_pairs_decide (R : Z -> Z -> Prop) (dec : forall r c, Decision (R r c))
    (n : Z) :
  bool_decide (Forall (fun r => Forall (R r) (seqZ 0 n)) (seqZ 0 n)) = true ->
  forall r c, 0 <= r < n -> 0 <= c < n -> R r c.
Proof.
  intros Hall r c Hr Hc. apply bool_decide_eq_true in Hall.
  rewrite Forall_seqZ in Hall. specialize (Hall r ltac:(lia)).
  rewrite Forall_seqZ in Hall. apply Hall. lia.
Qed.

Lemma covers_notebook : covers 3 Qap.locations /\ covers 3 Qap.facilities.
Proof.
  split; intros r c Hr Hc;
    apply (range_pairs_decide _ (fun r c => decide (r <> c -> is_Some (entry_at _ r c))) 3);
    done.
Qed.

Lemma products_exact_notebook : products_exact 3 Qap.locations Qap.facilities.
Proof.
  intros i j i2 j2 t p Hi Hj Hi2 Hj2 _ _ Ht Hp.
  below_three Hj; below_three Hj2; vm_compute in Ht; injection Ht as <-;
    below_three Hi; below_three Hi2; vm_compute in Hp; injection Hp as <-;
    done.
Qed.

Lemma products_exact_short : products_exact 3 short_locations Qap.facilities.
Proof.
  intros i j i2 j2 t p Hi Hj Hi2 Hj2 _ _ Ht Hp.
  below_three Hj; below_three Hj2; vm_compute in Ht; try discriminate Ht;
    injection Ht as <-;
    below_three Hi; below_three Hi2; vm_compute in Hp; injection Hp as <-;
    done.
Qed.

Lemma symmetric_notebook : symmetric 3 Qap.locations /\ symmetric 3 Qap.facilities.
Proof.
  split; intros r c Hr Hc;
    apply (range_pairs_decide _ (fun r c => decide (entry_at _ r c = entry_at _ c r)) 3);
    done.
Qed.

Lemma marked_locations_agree : agree_off_diagonal 3 Qap.locations marked_locations.
Proof.
  intros r c Hr Hc.
  apply (range_pairs_decide _
           (fun r c => decide (r <> c -> entry_at Qap.locations r c = entry_at marked_locations r c)) 3);
    done.
Qed.

Lemma binary_recorded : binary_on (seqZ 0 9) (of_values recorded_values).
Proof.
  unfold binary_on. apply Forall_seqZ. intros k Hk.
  assert (k = 0 \/ k = 1 \/ k = 2 \/ k = 3 \/ k = 4 \/ k = 5 \/ k = 6 \/ k = 7 \/ k = 8)
    as Hcases by lia.
  repeat (destruct Hcases as [-> | Hcases]; [vm_compute; auto |]).
  subst k. vm_compute. auto.
Qed.

Lemma qap_variable_map_ids_witness :
  (Qap.variable_map 3).*2 = seqZ 0 (3 * 3) /\
  (forall id, 0 <= id < 3 * 3 ->
     Qap.dict_getitem (Qap.variable_map 3) (id / 3, id mod 3) = Qap.Ok id).
Proof. apply (qap_variable_map_ids 3). lia. Defined.

Lemma qap_pairwise_terms_shape_witness :
  exists new,
    Qap.pairwise_terms (Qap.variable_map 3) Qap.locations Qap.facilities [] =
      Qap.Ok ([] ++ new) /\
    Z.of_nat (length new) = 3 * 3 * ((3 - 1) * (3 - 1)) /\
    Forall (pair_shaped 3 Qap.locations Qap.facilities) new.
Proof.
  apply (qap_pairwise_terms_shape 3 Qap.locations Qap.facilities []).
  - lia.
  - apply covers_notebook.
  - apply covers_notebook.
  - apply products_exact_notebook.
Defined.

Lemma qap_pairwise_terms_index_error_witness :
  Qap.pairwise_terms (Qap.variable_map 3) short_locations Qap.facilities [] =
  Qap.Raise Qap.IndexError.
Proof.
  apply (qap_pairwise_terms_index_error 3 short_locations Qap.facilities [] 2 1).
  - lia.
  - lia.
  - lia.
  - left. reflexivity.
  - apply products_exact_short.
Defined.

Lemma qap_pairwise_terms_ignore_diagonal_witness :
  Qap.pairwise_terms (Qap.variable_map 3) Qap.locations Qap.facilities [] =
  Qap.pairwise_terms (Qap.variable_map 3) marked_locations Qap.facilities [].
Proof.
  apply (qap_pairwise_terms_ignore_diagonal 3).
  - apply marked_locations_agree.
  - intros r c _ _ _. reflexivity.
Defined.

Lemma qap_pairwise_terms_mirrored_witness :
  exists new,
    Qap.pairwise_terms (Qap.variable_map 3) Qap.locations Qap.facilities [] =
      Qap.Ok ([] ++ new) /\
    NoDup (entry_ids <$> new) /\
    forall c a b, Qap.Term c [a; b] ∈ new -> Qap.Term c [b; a] ∈ new.
Proof.
  apply (qap_pairwise_terms_mirrored 3 Qap.locations Qap.facilities []).
  - apply covers_notebook.
  - apply covers_notebook.
  - apply products_exact_notebook.
  - apply symmetric_notebook.
  - apply symmetric_notebook.
Defined.

Lemma qap_group_penalty_witness :
  (exists e v,
     Qap.slc_term (Qap.variable_map 3) 3 1000 (-1) (fun i j => (i, j)) 1 = Qap.Ok e /\
     Qap.entry_value (of_values recorded_values) e = inject_Z v /\
     v = 1000 * (set_among (of_values recorded_values) (row_ids 3 1) - 1) ^ 2 /\
     (set_among (of_values recorded_values) (row_ids 3 1) = 1 -> v = 0) /\
     (set_among (of_values recorded_values) (row_ids 3 1) <> 1 -> 1000 <= v)) /\
  (exists e v,
     Qap.slc_term (Qap.variable_map 3) 3 1000 (-1) (fun i j => (j, i)) 1 = Qap.Ok e /\
     Qap.entry_value (of_values recorded_values) e = inject_Z v /\
     v = 1000 * (set_among (of_values recorded_values) (col_ids 3 1) - 1) ^ 2 /\
     (set_among (of_values recorded_values) (col_ids 3 1) = 1 -> v = 0) /\
     (set_among (of_values recorded_values) (col_ids 3 1) <> 1 -> 1000 <= v)).
Proof.
  apply (qap_group_penalty (of_values recorded_values) 3 1000 1).
  - lia.
  - lia.
  - unfold binary_on. compute_done.
  - unfold binary_on. compute_done.
Defined.

Lemma qap_build_counts_witness :
  exists monomials grouped,
    Qap.build 3 Qap.locations Qap.facilities 1000 (-1) =
      Qap.Ok (monomials ++ grouped) /\
    Forall is_monomial monomials /\
    Z.of_nat (length monomials) = 3 * 3 * ((3 - 1) * (3 - 1)) /\
    Forall is_grouped grouped /\
    Z.of_nat (length grouped) = 2 * 3.
Proof.
  apply (qap_build_counts 3 1000 (-1) Qap.locations Qap.facilities).
  - lia.
  - apply covers_notebook.
  - apply covers_notebook.
  - apply products_exact_notebook.
Defined.

Lemma qap_recorded_answer_optimal_witness :
  exists l,
    Qap.terms_list = Qap.Ok l /\
    (inject_Z 270 <= Qap.objective (of_values recorded_values) l)%Q /\
    ((Qap.objective (of_values recorded_values) l == inject_Z 270)%Q <->
     of_values recorded_values <$> seqZ 0 9 = recorded_values).
Proof.
  apply (qap_recorded_answer_optimal (of_values recorded_values)).
  unfold binary_on. compute_done.
Defined.

Lemma qap_report_prints_chosen_witness :
  Qap.report 3 (World recorded_config []) =
  (World recorded_config
     ([] ++ (Qap.sentence <$> filter (chosen 3 recorded_config) (Qap.variable_map 3).*1)),
   Qap.Ok ()).
Proof.
  apply (qap_report_prints_chosen 3 (World recorded_config [])).
  intros id Hid. simpl.
  assert (Forall (fun id => is_Some (getitem recorded_config (pretty id))) (seqZ 0 9))
    as Hall by compute_done.
  rewrite Forall_seqZ in Hall. apply Hall. lia.
Defined.

Lemma qap_report_key_error_witness :
  ((exists e, (Qap.report 3 (World partial_config [])).2 = Qap.Raise e) <->
   (exists id, 0 <= id < 3 * 3 /\ getitem partial_config (pretty id) = None)) /\
  (forall e, (Qap.report 3 (World partial_config [])).2 = Qap.Raise e ->
     exists pre v post,
       (Qap.variable_map 3).*1 = pre ++ v :: post /\
       e = Qap.KeyError (Qap.KStr (key_of 3 v)) /\
       getitem partial_config (key_of 3 v) = None /\
       Forall (present 3 partial_config) pre /\
       (Qap.report 3 (World partial_config [])).1 =
         World partial_config
           ([] ++ (Qap.sentence <$> filter (chosen 3 partial_config) pre))).
Proof. apply (qap_report_key_error 3 (World partial_config [])). lia. Defined.

Lemma qap_report_assignment_witness :
  Qap.report 3 (World recorded_config []) =
  (World recorded_config
     ([] ++ ((fun i => Qap.sentence (i, i)) <$> seqZ 0 3)),
   Qap.Ok ()).
Proof.
  apply (qap_report_assignment 3 (World recorded_config []) (fun i => i)).
  - intros i Hi. lia.
  - intros i j Hi Hj. below_three Hi; below_three Hj;
      (eexists; split; [reflexivity | split; intros; lia]).
Defined.

Lemma terms_cost_counts_violations_witness :
  cost vincent_tess_uma terms =
    Z.of_nat (length (filter (fun p => exactly_one vincent_tess_uma p = false)
                             constraint_pairs)) /\
  0 <= cost vincent_tess_uma terms <= 6.
Proof.
  apply (terms_cost_counts_violations vincent_tess_uma).
  unfold binary_on. compute_done.
Defined.

Lemma terms_minimisers_witness :
  cost vincent_tess_uma terms = 0 <->
  vincent_tess_uma <$> seqZ 0 6 = cycle_tess \/
  vincent_tess_uma <$> seqZ 0 6 = cycle_uma.
Proof.
  apply (terms_minimisers vincent_tess_uma).
  unfold binary_on. compute_done.
Defined.

Lemma zero_cost_prints_cycle_witness :
  print_results (World (config_of vincent_tess_uma) []) =
    (World (config_of vincent_tess_uma)
       ([] ++ ["Vincent buys Tess a gift and writes her a poem.";
               "Tess buys Uma a gift and writes her a poem.";
               "Uma buys Vincent a gift and writes him a poem."]%string),
     Returned) \/
  print_results (World (config_of vincent_tess_uma) []) =
    (World (config_of vincent_tess_uma)
       ([] ++ ["Vincent buys Uma a gift and writes her a poem.";
               "Tess buys Vincent a gift and writes him a poem.";
               "Uma buys Tess a gift and writes her a poem."]%string),
     Returned).
Proof.
  apply (zero_cost_prints_cycle vincent_tess_uma []).
  - unfold binary_on. compute_done.
  - reflexivity.
Defined.

(** The notebook's recorded run: 42 entries in [terms_list], and the three
    sentences printed for the recorded configuration. *)
Example qap_recorded_run :
  (exists l, Qap.terms_list = Qap.Ok l /\ length l = 42%nat) /\
  Qap.report Qap.n (World recorded_config []) =
  (World recorded_config
     ["Facility 0 assigned to Location 0";
      "Facility 1 assigned to Location 1";
      "Facility 2 assigned to Location 2"]%string,
   Qap.Ok ()).
Proof.
  split; [| vm_compute; reflexivity].
  eexists. split; [vm_compute; reflexivity | reflexivity].
Qed.

(** Where the division by [2.0] is not exact: just above 2^53 the quotient is
    rounded, and a product beyond the range of a float raises
    [OverflowError], here before the missing entry of the last row is ever
    asked for. *)
Example qap_division_beyond_exact :
  Qap.true_divide_two (2 ^ 53 + 1) = Qap.Ok (Qap.half (2 ^ 53)) /\
  Qap.true_divide_two (10 ^ 400) = Qap.Raise Qap.OverflowError /\
  Qap.pairwise_terms (Qap.variable_map 3) huge_locations Qap.facilities [] =
    Qap.Raise Qap.OverflowError.
Proof. split_and!; vm_compute; reflexivity. Qed.
